(** * querybook web application: search-and-replace hook and table-tag creator

    Shallow embedding of
    - [datahub/webapp/components/SearchAndReplace/SearchAndReplace.tsx]
      (the [useSearchAndReplace] hook), and
    - the [CreateDataTableTag] component,
    together with the properties their specification states about them. *)

From Stdlib Require Import ZArith NArith List Bool Lia String Ascii.
Import ListNotations.

Local Open Scope Z_scope.

(* ===================================================================== *)
(** * JavaScript values used by the two components *)
(* ===================================================================== *)

Module JS.

(** A JavaScript string is a finite sequence of UTF-16 code units. *)
Definition code_unit := N.
Definition str := list code_unit.

(** String literals of the source, written with Rocq's ASCII strings. *)
Definition lit (s : string) : str := map N_of_ascii (list_ascii_of_string s).

(** [a === b] on strings: same length and same code units. *)
Fixpoint str_eqb (a b : str) : bool :=
  match a, b with
  | [], [] => true
  | x :: a', y :: b' => N.eqb x y && str_eqb a' b'
  | _, _ => false
  end.

(** [arr[i]]: [None] stands for [undefined], which is what an index that
    is negative or not below [arr.length] reads. *)
Definition index {A : Type} (arr : list A) (i : Z) : option A :=
  if i <? 0 then None else nth_error arr (Z.to_nat i).

(** [arr.length] as a number. *)
Definition length {A : Type} (arr : list A) : Z := Z.of_nat (List.length arr).

(** [arr.includes(v)] on an array of strings. *)
Definition includes (arr : list str) (v : str) : bool :=
  existsb (str_eqb v) arr.

(** Objects are compared by identity ([Object.is]), so an object value
    carries the address it was allocated at. *)
Record obj (A : Type) : Type := mkObj { addr : nat; fields : A }.
Arguments mkObj {A} _ _.
Arguments addr {A} _.
Arguments fields {A} _.

Definition Object_is {A : Type} (a b : obj A) : bool := Nat.eqb (addr a) (addr b).

(** ** The fragment of regular expressions used by the tag validator *)

Inductive regex : Type :=
| AssertStart                                          (* ^ (no m flag) *)
| AssertEnd                                            (* $ (no m flag) *)
| CharClass (ranges : list (code_unit * code_unit))    (* [x-y...]      *)
| Quantified (r : regex) (min max : nat)               (* r{min,max}    *)
| Concat (r1 r2 : regex).

Record RegExp : Type := mkRegExp { source : regex; ignoreCase : bool }.

(** ASCII upper-casing, the part of [toUpperCase] that is fixed here. *)
Definition ascii_upper (c : code_unit) : code_unit :=
  if ((97 <=? c) && (c <=? 122))%N then (c - 32)%N else c.

(** Canonicalize(ch) of the language specification for a pattern without
    the u flag: upper-case the code unit, but never fold a code unit
    of 128 or above onto one below 128.  [toUpperCase ch] is the code unit
    of the Unicode upper case of [ch], or [ch] itself where that upper
    case is longer than one code unit. *)
Definition canonicalize (toUpperCase : code_unit -> code_unit)
           (ic : bool) (ch : code_unit) : code_unit :=
  if ic then
    let cu := toUpperCase ch in
    if ((128 <=? ch) && (cu <? 128))%N then ch else cu
  else ch.

(** A class matches [ch] when some member [a] of the class has
    [canonicalize a = canonicalize ch].  The members of a class of ranges
    are enumerated range by range. *)
Fixpoint range_members (lo : code_unit) (n : nat) : list code_unit :=
  match n with
  | O => []
  | S n' => lo :: range_members (N.succ lo) n'
  end.

Definition class_members (ranges : list (code_unit * code_unit)) : list code_unit :=
  flat_map (fun r => range_members (fst r) (N.to_nat (N.succ (snd r) - fst r))) ranges.

Definition class_matches (toUpperCase : code_unit -> code_unit) (ic : bool)
           (ranges : list (code_unit * code_unit)) (ch : code_unit) : bool :=
  existsb (fun a => N.eqb (canonicalize toUpperCase ic a)
                          (canonicalize toUpperCase ic ch))
          (class_members ranges).

(** The backtracking matcher: [matcher r pos rest k] tries [r] at offset
    [pos], where [rest] is the input from [pos] on, and hands the end
    position to the continuation [k].  Quantifiers are greedy: one more
    iteration is tried first, and while [min] is not met it is the only
    choice.  (The rule against empty iterations is left out: the one
    quantified term here is a character class, which never matches
    empty.) *)
Fixpoint matcher (toUpperCase : code_unit -> code_unit) (ic : bool) (r : regex)
         (pos : nat) (rest : str) (k : nat -> str -> bool) {struct r} : bool :=
  match r with
  | AssertStart => Nat.eqb pos 0 && k pos rest
  | AssertEnd => match rest with [] => k pos rest | _ :: _ => false end
  | CharClass ranges =>
      match rest with
      | [] => false
      | ch :: rest' =>
          class_matches toUpperCase ic ranges ch && k (S pos) rest'
      end
  | Concat r1 r2 =>
      matcher toUpperCase ic r1 pos rest
              (fun p s => matcher toUpperCase ic r2 p s k)
  | Quantified r1 min max =>
      (fix repeat (min max : nat) (pos : nat) (rest : str) {struct max} : bool :=
         match max with
         | O => Nat.eqb min 0 && k pos rest
         | S max' =>
             matcher toUpperCase ic r1 pos rest
                     (fun p s => repeat (Nat.pred min) max' p s)
             || (Nat.eqb min 0 && k pos rest)
         end) min max pos rest
  end.

(** [regex.exec(s)] for a pattern without the g and y flags: the matcher
    is tried at every start offset from 0 to [s.length], in order; the
    result is the offset of the first match, or [None] for [null]. *)
Fixpoint exec_from (toUpperCase : code_unit -> code_unit) (re : RegExp)
         (pos : nat) (rest : str) : option nat :=
  if matcher toUpperCase (ignoreCase re) (source re) pos rest (fun _ _ => true)
  then Some pos
  else match rest with
       | [] => None
       | _ :: rest' => exec_from toUpperCase re (S pos) rest'
       end.

(** [s.match(regex)], again without the g flag. *)
Definition str_match (toUpperCase : code_unit -> code_unit)
           (s : str) (re : RegExp) : option nat :=
  exec_from toUpperCase re 0%nat s.

End JS.

(* ===================================================================== *)
(** * The [useSearchAndReplace] hook *)
(* ===================================================================== *)

Module SearchAndReplace.
Import JS.

(** [ISearchOptions] and [ISearchAndReplaceState] of
    [const/searchAndReplace].  A match record ([ISearchResult]) is
    opaque to the hook, so the state is generic in it. *)
Record ISearchOptions : Type := mkOptions { matchCase : bool; useRegex : bool }.

Record ISearchAndReplaceState (ISearchResult : Type) : Type := mkState {
  searchString : str;
  replaceString : str;
  searchResults : list ISearchResult;
  currentSearchResultIndex : Z;
  searchOptions : obj ISearchOptions
}.
Arguments mkState {ISearchResult} _ _ _ _ _.
Arguments searchString {ISearchResult} _.
Arguments replaceString {ISearchResult} _.
Arguments searchResults {ISearchResult} _.
Arguments currentSearchResultIndex {ISearchResult} _.
Arguments searchOptions {ISearchResult} _.

Definition initialSearchState {ISearchResult : Type}
  : ISearchAndReplaceState ISearchResult :=
  {| searchString := [];
     replaceString := [];
     searchResults := [];
     currentSearchResultIndex := 0;
     searchOptions := mkObj 0%nat {| matchCase := false; useRegex := false |} |}.

(** An optional callback of the host.  What the callback does is the
    host's business; the hook only calls it, and every call is recorded. *)
Inductive optional_callback : Type := Supplied | Undefined.

(** [ISearchAndReplaceProps].  [replace] and [focusSearchBar] are required
    callbacks with no result the hook consumes, so only the calls to them
    appear (as events below). *)
Record ISearchAndReplaceProps (ISearchResult : Type) : Type := mkProps {
  getSearchResults : str -> obj ISearchOptions -> list ISearchResult;
  jumpToResult : optional_callback
}.
Arguments mkProps {ISearchResult} _ _.
Arguments getSearchResults {ISearchResult} _ _ _.
Arguments jumpToResult {ISearchResult} _.

(** What is chained on the promise returned by [jumpToResult]. *)
Inductive continuation : Type :=
| ThenFocusSearchBar      (* .then(focusSearchBar) *)
| ThenResolve.            (* .then(() => resolve()) *)

(** The calls the hook makes to its environment, in order.  [Resolve] is
    the direct [resolve()] of the promise [moveResultIndex] returns. *)
Inductive host_call (ISearchResult : Type) : Type :=
| GetSearchResults (q : str) (o : obj ISearchOptions)
| JumpToResult (m : option ISearchResult) (k : continuation)
| Replace (ms : list (option ISearchResult)) (r : str)
| Resolve.
Arguments GetSearchResults {ISearchResult} _ _.
Arguments JumpToResult {ISearchResult} _ _.
Arguments Replace {ISearchResult} _ _.
Arguments Resolve {ISearchResult}.

(** Calling [undefined] throws. *)
Inductive exn : Type := TypeError_not_a_function.

Inductive outcome (A : Type) : Type :=
| Ok (a : A)
| Throw (e : exn).
Arguments Ok {A} _.
Arguments Throw {A} _.

(** Computations of the hook: the host calls made so far, and a value or
    the exception that ended the computation. *)
Definition M (ISearchResult A : Type) : Type :=
  (list (host_call ISearchResult) * outcome A)%type.

Definition ret {R A : Type} (a : A) : M R A := ([], Ok a).

Definition bind {R A B : Type} (c : M R A) (f : A -> M R B) : M R B :=
  match c with
  | (log, Ok a) => let (log', r) := f a in (log ++ log', r)
  | (log, Throw e) => (log, Throw e)
  end.

Definition emit {R : Type} (e : host_call R) : M R unit := ([e], Ok tt).

Definition throw {R A : Type} (e : exn) : M R A := ([], Throw e).

Declare Scope hook_scope.
Delimit Scope hook_scope with hook.
Notation "x <- c ;; k" := (bind c (fun x => k))
  (at level 61, c at next level, right associativity) : hook_scope.
Notation "c ;; k" := (bind c (fun _ => k))
  (at level 61, right associativity) : hook_scope.
Local Open Scope hook_scope.

Section Hook.
Context {ISearchResult : Type}.
Local Abbreviation State := (ISearchAndReplaceState ISearchResult).
Local Abbreviation Props := (ISearchAndReplaceProps ISearchResult).
Local Abbreviation Hook := (M ISearchResult).

(** [jumpToResult(m).then(k)]. *)
Definition call_jumpToResult (cb : optional_callback)
           (m : option ISearchResult) (k : continuation) : Hook unit :=
  match cb with
  | Supplied => emit (JumpToResult m k)
  | Undefined => throw TypeError_not_a_function
  end.

Definition call_getSearchResults (P : Props) (q : str) (o : obj ISearchOptions)
  : Hook (list ISearchResult) :=
  emit (GetSearchResults q o) ;; ret (getSearchResults P q o).

(** [reset]: [setSearchState(initialSearchState)]. *)
Definition reset (oldSearchState : State) : Hook State :=
  ret initialSearchState.

(** [performSearch(isActiveSearch)]: the state updater it installs. *)
Definition performSearch (P : Props) (isActiveSearch : bool)
           (oldSearchState : State) : Hook State :=
  results <- call_getSearchResults P (searchString oldSearchState)
                                     (searchOptions oldSearchState) ;;
  (if isActiveSearch
   then call_jumpToResult (jumpToResult P)
          (index results (currentSearchResultIndex oldSearchState))
          ThenFocusSearchBar
   else ret tt) ;;
  ret {| searchString := searchString oldSearchState;
         replaceString := replaceString oldSearchState;
         searchResults := results;
         currentSearchResultIndex := currentSearchResultIndex oldSearchState;
         searchOptions := searchOptions oldSearchState |}.

Definition onSearchStringChange (q : str) (oldSearchState : State) : Hook State :=
  ret {| searchString := q;
         replaceString := replaceString oldSearchState;
         searchResults := searchResults oldSearchState;
         currentSearchResultIndex := 0;
         searchOptions := searchOptions oldSearchState |}.

Definition onSearchOptionsChange (o : obj ISearchOptions)
           (oldSearchState : State) : Hook State :=
  ret {| searchString := searchString oldSearchState;
         replaceString := replaceString oldSearchState;
         searchResults := searchResults oldSearchState;
         currentSearchResultIndex := 0;
         searchOptions := o |}.

Definition onReplaceStringChange (r : str) (oldSearchState : State) : Hook State :=
  ret {| searchString := searchString oldSearchState;
         replaceString := r;
         searchResults := searchResults oldSearchState;
         currentSearchResultIndex := currentSearchResultIndex oldSearchState;
         searchOptions := searchOptions oldSearchState |}.

(** The index computation of [moveResultIndex], on integers.  [%] is the
    remainder that takes the sign of the dividend, [Z.rem]; the number -0
    it can give reads the same element as 0 and is not told apart. *)
Definition wrapIndex (currIndex delta resultLen : Z) : Z :=
  let newIndex := currIndex + delta in
  Z.rem (if newIndex <? 0 then newIndex + resultLen else newIndex) resultLen.

(** [moveResultIndex(delta)].  The callback has an empty dependency
    list, so the [jumpToResult] it sees is the one of the first render;
    it is passed as [cb]. *)
Definition moveResultIndex (cb : optional_callback) (delta : Z)
           (oldSearchState : State) : Hook State :=
  let resultLen := length (searchResults oldSearchState) in
  if resultLen =? 0 then
    emit Resolve ;; ret oldSearchState
  else
    let currIndex := currentSearchResultIndex oldSearchState in
    let newIndex := wrapIndex currIndex delta resultLen in
    match cb with
    | Supplied =>
        emit (JumpToResult (index (searchResults oldSearchState) newIndex)
                           ThenResolve)
    | Undefined => emit Resolve
    end ;;
    ret {| searchString := searchString oldSearchState;
           replaceString := replaceString oldSearchState;
           searchResults := searchResults oldSearchState;
           currentSearchResultIndex := newIndex;
           searchOptions := searchOptions oldSearchState |}.

(** [onReplace(all)].  It reads the state of the render it was created
    in, which is the current state when events are handled one after
    the other.  The call of the host's [replace] is recorded; what the
    host does in answer (such as asking for a new search) is a later
    event. *)
Definition onReplace (cb : optional_callback) (all : bool)
           (searchState : State) : Hook State :=
  if all then
    emit (Replace (map Some (searchResults searchState))
                  (replaceString searchState)) ;;
    ret searchState
  else
    emit (Replace [index (searchResults searchState)
                         (currentSearchResultIndex searchState)]
                  (replaceString searchState)) ;;
    if currentSearchResultIndex searchState
       =? length (searchResults searchState) - 1
    then moveResultIndex cb 1 searchState
    else ret searchState.

(** The operations the hook hands out: the handlers of the bar and the
    two functions of the imperative handle. *)
Inductive action : Type :=
| OnSearchStringChange (q : str)
| OnSearchOptionsChange (o : obj ISearchOptions)
| OnReplaceStringChange (r : str)
| MoveResultIndex (delta : Z)
| OnReplace (all : bool)
| PerformSearch (isActiveSearch : bool)
| Reset.

Definition handler (cb : optional_callback) (P : Props) (a : action)
           (s : State) : Hook State :=
  match a with
  | OnSearchStringChange q => onSearchStringChange q s
  | OnSearchOptionsChange o => onSearchOptionsChange o s
  | OnReplaceStringChange r => onReplaceStringChange r s
  | MoveResultIndex delta => moveResultIndex cb delta s
  | OnReplace all => onReplace cb all s
  | PerformSearch isActiveSearch => performSearch P isActiveSearch s
  | Reset => reset s
  end.

(** The effect with dependencies
    [[searchState.searchString, searchState.searchOptions]]: it runs
    after a render in which one of the two differs from the previous
    render ([Object.is]: by value for the string, by identity for the
    options object), and it calls [performSearch(true)]. *)
Definition deps_changed (prev next : State) : bool :=
  negb (str_eqb (searchString prev) (searchString next))
  || negb (Object_is (searchOptions prev) (searchOptions next)).

Definition useEffect (P : Props) (prev next : State) : Hook State :=
  if deps_changed prev next then performSearch P true next else ret next.

(** The first render: the effect always runs once after mounting. *)
Definition mount (P : Props) : Hook State :=
  performSearch P true initialSearchState.

(** One event: the handler updates the state, the component renders
    again with the props [P] of that render, and the effect runs if
    its dependencies changed. *)
Definition dispatch (cb : optional_callback) (P : Props) (a : action)
           (s : State) : Hook State :=
  next <- handler cb P a s ;; useEffect P s next.

(** A sequence of events, each with the props of its render. *)
Fixpoint run (cb : optional_callback) (steps : list (Props * action))
         (s : State) : Hook State :=
  match steps with
  | [] => ret s
  | (P, a) :: rest => next <- dispatch cb P a s ;; run cb rest next
  end.

(** The invariant the specification states for the index. *)
Definition index_in_range (s : State) : Prop :=
  0 <= currentSearchResultIndex s
  < Z.max 1 (length (searchResults s)).

(** The navigation requests in a log. *)
Definition is_jump (e : host_call ISearchResult) : bool :=
  match e with JumpToResult _ _ => true | _ => false end.

Definition is_search (e : host_call ISearchResult) : bool :=
  match e with GetSearchResults _ _ => true | _ => false end.

(** What a changed search input leads to: one call of the search function
    on the new input and, when [jumpToResult] exists, one navigation
    request for the match at index 0, with focus going back to the bar. *)
Definition active_search_of (P : Props) (s : State) (q : str)
           (o : obj ISearchOptions) : Hook State :=
  match jumpToResult P with
  | Supplied =>
      ([GetSearchResults q o;
        JumpToResult (index (getSearchResults P q o) 0) ThenFocusSearchBar],
       Ok {| searchString := q;
             replaceString := replaceString s;
             searchResults := getSearchResults P q o;
             currentSearchResultIndex := 0;
             searchOptions := o |})
  | Undefined => ([GetSearchResults q o], Throw TypeError_not_a_function)
  end.

(** The calls under which an operation keeps the index in range:
    [moveResultIndex] when the raw sum is not below [-resultLen], and
    [performSearch] when the index it keeps is in range for the list it
    installs.  The other operations need nothing. *)
Definition keeps_index_in_range (P : Props) (a : action) (s : State) : Prop :=
  match a with
  | MoveResultIndex delta =>
      - length (searchResults s) <= currentSearchResultIndex s + delta
  | PerformSearch _ =>
      currentSearchResultIndex s
      < Z.max 1 (length (getSearchResults P (searchString s) (searchOptions s)))
  | _ => True
  end.

End Hook.

End SearchAndReplace.

(* ===================================================================== *)
(** * The [CreateDataTableTag] component *)
(* ===================================================================== *)

Module CreateDataTableTag.
Import JS.

(** [ITag] of [const/tag]; the component reads only [name]. *)
Record ITag : Type := mkTag { name : str }.

(** The component's own state. *)
Record widget : Type := mkWidget { showSelect : bool }.

Definition setShowSelect (b : bool) (w : widget) : widget :=
  {| showSelect := b |}.

(** The click handler of the add button. *)
Definition onClickAdd (w : widget) : widget := setShowSelect true w.

(** [existingTags]: [(tags || []).map((tag) => tag.name)]; [None] is a
    [tags] prop that is [null] or [undefined]. *)
Definition existingTags (tags : option (list ITag)) : list str :=
  map name (match tags with Some l => l | None => [] end).

(** The literal [/^[a-z0-9]{1,255}$/i]. *)
Definition tag_regex : RegExp :=
  {| source :=
       Concat AssertStart
              (Concat (Quantified (CharClass [(97, 122); (48, 57)]%N) 1 255)
                      AssertEnd);
     ignoreCase := true |}.

(** [isValidCheck(val)]: [Boolean(match && !existingTags.includes(val))]. *)
Definition isValidCheck (toUpperCase : code_unit -> code_unit)
           (tags : option (list ITag)) (val : str) : bool :=
  let m := str_match toUpperCase val tag_regex in
  match m with
  | None => false
  | Some _ => negb (includes (existingTags tags) val)
  end.

(** The action [createTableTag(tableId, tag)] handed to the store. *)
Inductive redux_action : Type :=
| CreateTableTag (tableId : Z) (tag : str).

Definition createTag (tableId : Z) (tag : str) : redux_action :=
  CreateTableTag tableId tag.

(** A promise, as seen at some later moment: still pending, or settled on
    one of its two paths with a payload the store chose. *)
Inductive promise (V E : Type) : Type :=
| Pending
| Fulfilled (v : V)
| Rejected (e : E).
Arguments Pending {V E}.
Arguments Fulfilled {V E} _.
Arguments Rejected {V E} _.

(** [p.finally(onFinally)]: the callback takes no argument and runs once
    [p] has settled, on either path; the promise returned settles as [p]
    did. *)
Definition finally_ {V E S : Type} (p : promise V E) (onFinally : S -> S)
           (s : S) : S * promise V E :=
  match p with
  | Pending => (s, Pending)
  | Fulfilled v => (onFinally s, Fulfilled v)
  | Rejected e => (onFinally s, Rejected e)
  end.

(** [handleCreateTag(val)]: [createTag(val).finally(() => setShowSelect(false))].
    [request] is the promise the store's [dispatch] returned for the
    action, in the state it is in when the widget is looked at again.  The
    result is the action dispatched, the widget, and the promise the
    handler drops. *)
Definition handleCreateTag {V E : Type} (tableId : Z) (val : str)
           (request : redux_action -> promise V E) (w : widget)
  : redux_action * widget * promise V E :=
  let a := createTag tableId val in
  let (w', p) := finally_ (request a) (setShowSelect false) w in
  (a, w', p).

(** The pattern as the specification words it: 1 to 255 characters, each
    an ASCII letter of either case or a digit. *)
Definition is_alnum (c : code_unit) : Prop :=
  ((48 <= c <= 57) \/ (65 <= c <= 90) \/ (97 <= c <= 122))%N.

Definition matches_tag_pattern (s : str) : Prop :=
  (1 <= List.length s <= 255)%nat /\ Forall is_alnum s.

End CreateDataTableTag.

(* ===================================================================== *)
(** * Concrete hosts and states used in the examples *)
(* ===================================================================== *)

Module Examples.
Import JS SearchAndReplace.

(** A host whose document holds [n] occurrences of "foo"; match records
    are the occurrence numbers. *)
Definition fooHost (n : nat) (cb : optional_callback)
  : ISearchAndReplaceProps nat :=
  {| getSearchResults := fun q _ => if str_eqb q (lit "foo") then seq 0 n else [];
     jumpToResult := cb |}.

(** Three matches for "foo", cursor on the first or on the last one. *)
Definition threeAt (i : Z) : ISearchAndReplaceState nat :=
  {| searchString := lit "foo";
     replaceString := lit "bar";
     searchResults := [0; 1; 2]%nat;
     currentSearchResultIndex := i;
     searchOptions := mkObj 0%nat {| matchCase := false; useRegex := false |} |}.

(** No match at all for "qux". *)
Definition noMatch : ISearchAndReplaceState nat :=
  {| searchString := lit "qux";
     replaceString := lit "bar";
     searchResults := [];
     currentSearchResultIndex := 0;
     searchOptions := mkObj 0%nat {| matchCase := false; useRegex := false |} |}.

(** An upper-case mapping that agrees with Unicode on ASCII and on the two
    code units outside ASCII whose upper case is an ASCII letter. *)
Definition toUpperCase (c : code_unit) : code_unit :=
  if (c =? 305)%N then 73%N          (* dotless i  -> I *)
  else if (c =? 383)%N then 83%N     (* long s     -> S *)
  else ascii_upper c.

End Examples.

(* ===================================================================== *)
(** * The [SearchAndReplace] component around the hook *)
(* ===================================================================== *)

Module Overlay.
Import JS SearchAndReplace.

(** The two combinations the component asks [matchKeyPress] about:
    ['Cmd-F'] and ['esc']. *)
Inductive key_combo : Type := Cmd_F | Esc.

(** What the component does to the page: focus the bar, and the two calls
    on a handled keyboard event. *)
Inductive dom_call : Type :=
| FocusSearchBar
| StopPropagation
| PreventDefault.

(** The component's state: its own [showSearchAndReplace] flag and the
    state of the hook it calls.  The bar is rendered exactly while the
    flag is set. *)
Record overlay (ISearchResult : Type) : Type := mkOverlay {
  showSearchAndReplace : bool;
  searchState : ISearchAndReplaceState ISearchResult
}.
Arguments mkOverlay {ISearchResult} _ _.
Arguments showSearchAndReplace {ISearchResult} _.
Arguments searchState {ISearchResult} _.

(** [focusSearchBar]: [searchBarRef.current?.focus()].  The ref holds the
    bar while the bar is rendered, and is empty otherwise. *)
Definition focusSearchBar (barRendered : bool) : list dom_call :=
  if barRendered then [FocusSearchBar] else [].

Section Component.
Context {KeyboardEvent ISearchResult : Type}.

(** [matchKeyPress] of [lib/utils/keyboard], whose code is not part of
    these files: any test of an event against a combination. *)
Variable matchKeyPress : KeyboardEvent -> key_combo -> bool.

(** [onKeyDown(evt)]: the new value of the flag and the calls made. *)
Definition onKeyDown (evt : KeyboardEvent) (showSearchAndReplace : bool)
  : bool * list dom_call :=
  let '(show, calls, handled) :=
    if matchKeyPress evt Cmd_F then
      if negb showSearchAndReplace
      then (true, [], true)
      else (showSearchAndReplace, focusSearchBar showSearchAndReplace, true)
    else if showSearchAndReplace && matchKeyPress evt Esc then
      (false, [], true)
    else
      (showSearchAndReplace, [], false)
  in
  (show, calls ++ (if handled then [StopPropagation; PreventDefault] else [])).

(** What can happen to the component: a key pressed anywhere in the
    window, the hide control of the bar, and the operations of the hook
    (those of the bar while it is rendered, [performSearch] and [reset]
    through the imperative handle at any time). *)
Inductive event : Type :=
| KeyDown (evt : KeyboardEvent)
| OnHide
| HookEvent (a : action).

Definition step (cb : optional_callback) (P : ISearchAndReplaceProps ISearchResult)
           (ev : event) (o : overlay ISearchResult)
  : list dom_call * M ISearchResult (overlay ISearchResult) :=
  match ev with
  | KeyDown evt =>
      let (show, calls) := onKeyDown evt (showSearchAndReplace o) in
      (calls, ret {| showSearchAndReplace := show; searchState := searchState o |})
  | OnHide =>
      ([], ret {| showSearchAndReplace := false; searchState := searchState o |})
  | HookEvent a =>
      ([], bind (dispatch cb P a (searchState o))
                (fun next => ret {| showSearchAndReplace := showSearchAndReplace o;
                                    searchState := next |}))
  end.

End Component.

Arguments event : clear implicits.

End Overlay.

(* ===================================================================== *)
(** * Runs of the hook against one host *)
(* ===================================================================== *)

Module HookRuns.
Import JS SearchAndReplace.

Section Runs.
Context {ISearchResult : Type}.




(** The state with another index. *)
Definition with_index (s : ISearchAndReplaceState ISearchResult) (i : Z)
  : ISearchAndReplaceState ISearchResult :=
  {| searchString := searchString s;
     replaceString := replaceString s;
     searchResults := searchResults s;
     currentSearchResultIndex := i;
     searchOptions := searchOptions s |}.

(** The state with another result list. *)
Definition with_results (s : ISearchAndReplaceState ISearchResult)
           (results : list ISearchResult) : ISearchAndReplaceState ISearchResult :=
  {| searchString := searchString s;
     replaceString := replaceString s;
     searchResults := results;
     currentSearchResultIndex := currentSearchResultIndex s;
     searchOptions := searchOptions s |}.

(** The result list the host gives for the input held in a state. *)
Definition fresh_results (P : ISearchAndReplaceProps ISearchResult)
           (s : ISearchAndReplaceState ISearchResult) : list ISearchResult :=
  getSearchResults P (searchString s) (searchOptions s).

(** The one call [moveResultIndex] logs when it lands on index [i]. *)
Definition move_call (cb : optional_callback)
           (s : ISearchAndReplaceState ISearchResult) (i : Z)
  : host_call ISearchResult :=
  match cb with
  | Supplied => JumpToResult (index (searchResults s) i) ThenResolve
  | Undefined => Resolve
  end.

(** Numbers are doubles.  Every integer of magnitude up to 2^53 is a
    double, and the sum of two such integers is computed without rounding
    when it is again of magnitude up to 2^53; [%] never rounds. *)
Definition exact_number (z : Z) : Prop := - 2 ^ 53 <= z <= 2 ^ 53.

Definition exact_sum (a b : Z) : Prop :=
  exact_number a /\ exact_number b /\ exact_number (a + b).

(** [moveResultIndex(delta)] in state [s] computes without rounding: the
    index, [delta] and their sum are exact, and the result list has the
    length of an array (below 2^32), so that adding it to a negative sum
    is exact as well. *)
Definition exact_move (s : ISearchAndReplaceState ISearchResult) (delta : Z)
  : Prop :=
  length (searchResults s) < 2 ^ 32
  /\ exact_sum (currentSearchResultIndex s) delta.

(** The events that make the effect call [performSearch(true)]. *)
Definition triggers_active_search (a : action)
           (s : ISearchAndReplaceState ISearchResult) : bool :=
  match a with
  | OnSearchStringChange q => negb (str_eqb (searchString s) q)
  | OnSearchOptionsChange o => negb (Object_is (searchOptions s) o)
  | PerformSearch isActiveSearch => isActiveSearch
  | Reset => deps_changed s initialSearchState
  | _ => false
  end.

End Runs.

End HookRuns.

(* ===================================================================== *)
(** * More concrete inputs *)
(* ===================================================================== *)

Module MoreExamples.
Import JS SearchAndReplace Overlay.

(** Keys as a host's [matchKeyPress] would sort them. *)
Inductive key : Type := KeyCmdF | KeyEsc | KeyOther.

Definition matchKey (k : key) (c : key_combo) : bool :=
  match k, c with
  | KeyCmdF, Cmd_F => true
  | KeyEsc, Esc => true
  | _, _ => false
  end.

(** The bar open on three matches for "foo", cursor on the second. *)
Definition openOnSecond : overlay nat :=
  {| showSearchAndReplace := true; searchState := Examples.threeAt 1 |}.

End MoreExamples.

(* ===================================================================== *)
(** * Facts about JavaScript values *)
(* ===================================================================== *)

Module JSFacts.
Import JS.

Lemma str_eqb_eq (a b : str) : str_eqb a b = true <-> a = b.
Proof.
  revert b; induction a as [|x a IH]; intros [|y b]; simpl; split;
    try congruence; try reflexivity.
  - intros H. apply andb_true_iff in H as [Hx Hab].
    apply N.eqb_eq in Hx. apply IH in Hab. congruence.
  - intros H. injection H as -> ->. rewrite N.eqb_refl. simpl. now apply IH.
Qed.

Lemma str_eqb_refl (a : str) : str_eqb a a = true.
Proof. now apply str_eqb_eq. Qed.

Lemma str_eqb_neq (a b : str) : str_eqb a b = false <-> a <> b.
Proof.
  split.
  - intros H E. apply str_eqb_eq in E. congruence.
  - intros H. destruct (str_eqb a b) eqn:E; [|reflexivity].
    apply str_eqb_eq in E. contradiction.
Qed.

Lemma Object_is_refl {A : Type} (o : obj A) : Object_is o o = true.
Proof. apply Nat.eqb_refl. Qed.

Lemma includes_In (arr : list str) (v : str) : includes arr v = true <-> In v arr.
Proof.
  unfold includes. rewrite existsb_exists. split.
  - intros (x & Hin & E). apply str_eqb_eq in E. now subst.
  - intros H. exists v. split; [assumption | apply str_eqb_refl].
Qed.

Lemma index_nil {A : Type} (i : Z) : index (@nil A) i = None.
Proof. unfold index. destruct (i <? 0); [reflexivity|]. now destruct (Z.to_nat i). Qed.

Lemma index_negative {A : Type} (arr : list A) (i : Z) : i < 0 -> index arr i = None.
Proof. intros H. unfold index. apply Z.ltb_lt in H. now rewrite H. Qed.

Lemma index_beyond {A : Type} (arr : list A) (i : Z) :
  length arr <= i -> index arr i = None.
Proof.
  intros H. unfold index, length in *. destruct (i <? 0) eqn:E; [reflexivity|].
  apply nth_error_None. lia.
Qed.

Lemma index_defined {A : Type} (arr : list A) (i : Z) :
  0 <= i < length arr -> exists m, index arr i = Some m /\ In m arr.
Proof.
  intros [H0 H1]. unfold index, length in *.
  replace (i <? 0) with false by (symmetry; apply Z.ltb_ge; lia).
  destruct (nth_error arr (Z.to_nat i)) as [m|] eqn:E.
  - exists m. split; [reflexivity|]. eapply nth_error_In; eassumption.
  - apply nth_error_None in E. lia.
Qed.

End JSFacts.

(* ===================================================================== *)
(** * Properties of the search-and-replace hook *)
(* ===================================================================== *)

Module SearchAndReplaceFacts.
Import JS JSFacts SearchAndReplace Examples.
Local Open Scope hook_scope.

Section Facts.
Context {ISearchResult : Type}.
Local Abbreviation State := (ISearchAndReplaceState ISearchResult).
Local Abbreviation Props := (ISearchAndReplaceProps ISearchResult).

(** For a raw sum that is not below [-resultLen], the index computed by
    [moveResultIndex] is the non-negative remainder. *)
Lemma wrapIndex_mod (currIndex delta resultLen : Z) :
  0 < resultLen -> - resultLen <= currIndex + delta ->
  wrapIndex currIndex delta resultLen = (currIndex + delta) mod resultLen.
Proof.
  intros Hlen Hlow. unfold wrapIndex.
  destruct (currIndex + delta <? 0) eqn:E.
  - apply Z.ltb_lt in E.
    rewrite Z.rem_small by lia.
    apply Z.mod_unique with (q := -1); lia.
  - apply Z.ltb_ge in E. apply Z.rem_mod_nonneg; lia.
Qed.

Lemma wrapIndex_range (currIndex delta resultLen : Z) :
  0 < resultLen -> - resultLen <= currIndex + delta ->
  0 <= wrapIndex currIndex delta resultLen < resultLen.
Proof.
  intros Hlen Hlow. rewrite wrapIndex_mod by assumption.
  apply Z.mod_pos_bound; assumption.
Qed.


Lemma moveResultIndex_nonempty (cb : optional_callback) (delta : Z) (s : State) :
  searchResults s <> [] ->
  exists log,
    moveResultIndex cb delta s =
      (log,
       Ok {| searchString := searchString s;
             replaceString := replaceString s;
             searchResults := searchResults s;
             currentSearchResultIndex :=
               wrapIndex (currentSearchResultIndex s) delta
                         (length (searchResults s));
             searchOptions := searchOptions s |}).
Proof.
  intros Hne. unfold moveResultIndex.
  destruct (length (searchResults s) =? 0) eqn:E.
  - apply Z.eqb_eq in E. unfold length in E.
    destruct (searchResults s); [contradiction | discriminate].
  - destruct cb; eexists; reflexivity.
Qed.

(** [performSearch] leaves the dependencies of the effect alone, so the
    effect does not run a second time after its own search. *)
Lemma performSearch_keeps_deps (P : Props) (b : bool) (s s' : State) :
  snd (performSearch P b s) = Ok s' -> deps_changed s s' = false.
Proof.
  unfold performSearch, call_getSearchResults, call_jumpToResult.
  destruct b; [destruct (jumpToResult P)|]; simpl; intros H;
    try discriminate; injection H as <-;
    unfold deps_changed; simpl;
    now rewrite str_eqb_refl, Object_is_refl.
Qed.

Lemma deps_unchanged_same (s : State) : deps_changed s s = false.
Proof. unfold deps_changed. now rewrite str_eqb_refl, Object_is_refl. Qed.

(** After [reset()] the effect runs again when the search input was not the
    initial one: an active search on the empty query. *)
Lemma reset_then_effect (cb : optional_callback) (P : Props) (s : State) :
  dispatch cb P Reset s
  = if deps_changed s initialSearchState
    then performSearch P true initialSearchState
    else ret initialSearchState.
Proof.
  unfold dispatch, handler, reset, useEffect. simpl.
  destruct (deps_changed s initialSearchState); [|reflexivity].
  destruct (performSearch P true initialSearchState) as [log r]. reflexivity.
Qed.

(** C8: whatever the prior state, [reset()] installs the initial state:
    empty search and replace strings, no results, index 0, and the options
    [{ matchCase: false, useRegex: false }]; it calls nothing on the host. *)
Theorem reset_restores_initial_state (s : State) :
  reset s = ([], Ok initialSearchState)
  /\ searchString (@initialSearchState ISearchResult) = []
  /\ replaceString (@initialSearchState ISearchResult) = []
  /\ searchResults (@initialSearchState ISearchResult) = []
  /\ currentSearchResultIndex (@initialSearchState ISearchResult) = 0
  /\ fields (searchOptions (@initialSearchState ISearchResult))
     = {| matchCase := false; useRegex := false |}.
Proof. repeat split. Qed.

(** C10: [onReplaceStringChange(r)] changes the [replaceString] field and
    nothing else, and the render that follows makes no host call: the
    effect does not run, so no search is triggered. *)
Theorem onReplaceStringChange_only_replaceString
        (cb : optional_callback) (P : Props) (s : State) (r : str) :
  dispatch cb P (OnReplaceStringChange r) s =
    ([], Ok {| searchString := searchString s;
               replaceString := r;
               searchResults := searchResults s;
               currentSearchResultIndex := currentSearchResultIndex s;
               searchOptions := searchOptions s |}).
Proof.
  unfold dispatch, handler, onReplaceStringChange, useEffect, deps_changed.
  simpl. now rewrite str_eqb_refl, Object_is_refl.
Qed.

(** C7: with no search results, [moveResultIndex(delta)] returns the state
    it was given, resolves its promise at once, and requests no
    navigation, whether or not a [jumpToResult] callback exists; the
    render that follows does nothing more. *)
Theorem moveResultIndex_no_results
        (cb : optional_callback) (P : Props) (delta : Z) (s : State) :
  searchResults s = [] ->
  moveResultIndex cb delta s = ([Resolve], Ok s)
  /\ existsb is_jump (fst (moveResultIndex cb delta s)) = false
  /\ dispatch cb P (MoveResultIndex delta) s = ([Resolve], Ok s).
Proof.
  intros Hnil.
  assert (E : moveResultIndex cb delta s = ([Resolve], Ok s)).
  { unfold moveResultIndex. rewrite Hnil. reflexivity. }
  repeat split.
  - exact E.
  - rewrite E. reflexivity.
  - unfold dispatch, handler. rewrite E. simpl.
    unfold useEffect. now rewrite deps_unchanged_same.
Qed.

(** C5: in every state with results present, [onReplace(true)] hands the
    host all current matches in one call and returns the state, the index
    included, unchanged, wherever the cursor is; and when the cursor is on
    the last index, [onReplace(false)] hands the host exactly the match at
    that index, then moves the index to [(index + 1) mod length], which
    is 0.  Away from the last index [onReplace(false)] makes the same one
    call for the element at the index and leaves the state alone. *)
Theorem onReplace_last_index_and_all (cb : optional_callback) (s : State) :
  searchResults s <> [] ->
  (currentSearchResultIndex s = length (searchResults s) - 1 ->
   (exists m,
       index (searchResults s) (currentSearchResultIndex s) = Some m
       /\ onReplace cb false s =
            ([Replace [Some m] (replaceString s);
              match cb with
              | Supplied => JumpToResult (index (searchResults s) 0) ThenResolve
              | Undefined => Resolve
              end],
             Ok {| searchString := searchString s;
                   replaceString := replaceString s;
                   searchResults := searchResults s;
                   currentSearchResultIndex := 0;
                   searchOptions := searchOptions s |}))
   /\ (currentSearchResultIndex s + 1) mod length (searchResults s) = 0)
  /\ (currentSearchResultIndex s <> length (searchResults s) - 1 ->
      onReplace cb false s =
        ([Replace [index (searchResults s) (currentSearchResultIndex s)]
                  (replaceString s)],
         Ok s))
  /\ onReplace cb true s =
       ([Replace (map Some (searchResults s)) (replaceString s)], Ok s).
Proof.
  intros Hne. split; [intros Hlast | split; [intros Hnl | reflexivity]];
    [|unfold onReplace;
      replace (currentSearchResultIndex s =? length (searchResults s) - 1)
        with false by (symmetry; apply Z.eqb_neq; exact Hnl);
      reflexivity].
  assert (Hlen : 0 < length (searchResults s)).
  { unfold length. destruct (searchResults s); [contradiction | simpl; lia]. }
  assert (Hwrap : wrapIndex (currentSearchResultIndex s) 1
                            (length (searchResults s)) = 0).
  { rewrite wrapIndex_mod by lia. rewrite Hlast.
    replace (length (searchResults s) - 1 + 1)
      with (length (searchResults s)) by lia.
    apply Z.mod_same. lia. }
  split.
  - destruct (index_defined (searchResults s) (currentSearchResultIndex s))
      as (m & Hm & _); [lia|].
    exists m. split; [exact Hm|].
    unfold onReplace. rewrite Hm.
    replace (currentSearchResultIndex s =? length (searchResults s) - 1)
      with true by (symmetry; apply Z.eqb_eq; exact Hlast).
    unfold moveResultIndex.
    replace (length (searchResults s) =? 0) with false
      by (symmetry; apply Z.eqb_neq; lia).
    rewrite Hwrap. destruct cb; reflexivity.
  - rewrite Hlast.
    replace (length (searchResults s) - 1 + 1)
      with (length (searchResults s)) by lia.
    apply Z.mod_same. lia.
Qed.

(** C4: [performSearch(true)] calls [jumpToResult] without testing it.
    With a callback the call receives [searchResults[currentSearchResultIndex]]
    of the fresh list, which is [undefined] when that list is empty;
    without one the call throws.  [moveResultIndex] tests the callback
    first and never throws.  Both cases are met on the first render, where
    the effect runs [performSearch(true)] on the initial state. *)
Theorem performSearch_active_calls_jumpToResult_unguarded (P : Props) (s : State) :
  performSearch P true s =
    (let results := getSearchResults P (searchString s) (searchOptions s) in
     match jumpToResult P with
     | Supplied =>
         ([GetSearchResults (searchString s) (searchOptions s);
           JumpToResult (index results (currentSearchResultIndex s))
                        ThenFocusSearchBar],
          Ok {| searchString := searchString s;
                replaceString := replaceString s;
                searchResults := results;
                currentSearchResultIndex := currentSearchResultIndex s;
                searchOptions := searchOptions s |})
     | Undefined =>
         ([GetSearchResults (searchString s) (searchOptions s)],
          Throw TypeError_not_a_function)
     end)
  /\ index (@nil ISearchResult) (currentSearchResultIndex s) = None
  /\ (forall delta, exists log s',
         moveResultIndex Undefined delta s = (log, Ok s')
         /\ existsb is_jump log = false)
  /\ (forall g, snd (mount (mkProps g Undefined))
                = @Throw State TypeError_not_a_function)
  /\ mount (mkProps (fun _ _ => @nil ISearchResult) Supplied)
     = ([GetSearchResults [] (searchOptions (@initialSearchState ISearchResult));
         JumpToResult None ThenFocusSearchBar],
        Ok initialSearchState).
Proof.
  split; [|split; [|split; [|split]]].
  - unfold performSearch, call_getSearchResults, call_jumpToResult.
    destruct (jumpToResult P); reflexivity.
  - apply index_nil.
  - intros delta. unfold moveResultIndex.
    destruct (length (searchResults s) =? 0); do 2 eexists; split; reflexivity.
  - intros g. reflexivity.
  - reflexivity.
Qed.

(** C1 (amended): a change of [searchString] through [onSearchStringChange],
    or of [searchOptions] through [onSearchOptionsChange], sets the index
    to 0 and makes the effect run exactly one search, and that search is
    [performSearch(true)], an active one: it asks the host to navigate to
    the match at index 0 of the fresh results (and throws where no
    [jumpToResult] was supplied). *)
Theorem search_input_change_triggers_one_active_search
        (cb : optional_callback) (P : Props) (s : State)
        (q : str) (o : obj ISearchOptions) :
  q <> searchString s ->
  Object_is (searchOptions s) o = false ->
  (dispatch cb P (OnSearchStringChange q) s
   = (next <- onSearchStringChange q s ;; performSearch P true next)
   /\ dispatch cb P (OnSearchStringChange q) s
      = active_search_of P s q (searchOptions s))
  /\ (dispatch cb P (OnSearchOptionsChange o) s
      = (next <- onSearchOptionsChange o s ;; performSearch P true next)
      /\ dispatch cb P (OnSearchOptionsChange o) s
         = active_search_of P s (searchString s) o)
  /\ (forall a, a = OnSearchStringChange q \/ a = OnSearchOptionsChange o ->
        List.length (filter is_search (fst (dispatch cb P a s))) = 1%nat
        /\ (jumpToResult P = Supplied ->
            List.length (filter is_jump (fst (dispatch cb P a s))) = 1%nat
            /\ exists next, snd (dispatch cb P a s) = Ok next
                            /\ currentSearchResultIndex next = 0)).
Proof.
  intros Hq Ho.
  assert (Hq' : str_eqb (searchString s) q = false)
    by (apply str_eqb_neq; congruence).
  assert (E1 : dispatch cb P (OnSearchStringChange q) s
               = active_search_of P s q (searchOptions s)).
  { unfold dispatch, handler, onSearchStringChange, useEffect, deps_changed.
    simpl. rewrite Hq'. simpl.
    unfold performSearch, call_getSearchResults, call_jumpToResult,
      active_search_of.
    destruct (jumpToResult P); reflexivity. }
  assert (E2 : dispatch cb P (OnSearchOptionsChange o) s
               = active_search_of P s (searchString s) o).
  { unfold dispatch, handler, onSearchOptionsChange, useEffect, deps_changed.
    simpl. rewrite Ho, orb_true_r. simpl.
    unfold performSearch, call_getSearchResults, call_jumpToResult,
      active_search_of.
    destruct (jumpToResult P); reflexivity. }
  split; [|split].
  - split; [|exact E1]. rewrite E1.
    unfold onSearchStringChange, performSearch, call_getSearchResults,
      call_jumpToResult, active_search_of.
    destruct (jumpToResult P); reflexivity.
  - split; [|exact E2]. rewrite E2.
    unfold onSearchOptionsChange, performSearch, call_getSearchResults,
      call_jumpToResult, active_search_of.
    destruct (jumpToResult P); reflexivity.
  - intros a [-> | ->]; [rewrite E1 | rewrite E2]; unfold active_search_of;
      (split; [destruct (jumpToResult P); reflexivity|]);
      intros ->; (split; [reflexivity|]); eexists; split; reflexivity.
Qed.

(** C3 (amended): the initial state has its index in range, and an
    operation keeps the index in range when it is one of
    [onSearchStringChange], [onSearchOptionsChange], [onReplaceStringChange],
    [onReplace], [reset]; or [moveResultIndex(delta)] with
    [currentSearchResultIndex + delta >= -length]; or [performSearch] with
    the current index below [max(1, length of the fresh results)].  The
    only operation that can throw is [performSearch(true)] without a
    [jumpToResult] callback. *)
Theorem index_in_range_preserved
        (cb : optional_callback) (P : Props) (a : action) (s : State) :
  index_in_range s ->
  keeps_index_in_range P a s ->
  index_in_range (@initialSearchState ISearchResult)
  /\ match snd (handler cb P a s) with
     | Ok s' => index_in_range s'
     | Throw _ => a = PerformSearch true /\ jumpToResult P = Undefined
     end.
Proof.
  intros Hinv Hside. split; [unfold index_in_range; simpl; lia|].
  assert (Hmove : forall delta,
             - length (searchResults s) <= currentSearchResultIndex s + delta ->
             match snd (moveResultIndex cb delta s) with
             | Ok s' => index_in_range s'
             | Throw _ => False
             end).
  { intros delta Hlow. unfold moveResultIndex.
    destruct (length (searchResults s) =? 0) eqn:E; [exact Hinv|].
    apply Z.eqb_neq in E.
    assert (Hlen : 0 < length (searchResults s)) by (unfold length in *; lia).
    pose proof (wrapIndex_range (currentSearchResultIndex s) delta _ Hlen Hlow).
    destruct cb; simpl; unfold index_in_range; simpl; lia. }
  destruct a as [q | o | r | delta | all | b | ]; simpl in *.
  - unfold index_in_range in *; simpl; lia.
  - unfold index_in_range in *; simpl; lia.
  - exact Hinv.
  - specialize (Hmove delta Hside).
    destruct (snd (moveResultIndex cb delta s)); [assumption | contradiction].
  - unfold onReplace. destruct all; [exact Hinv|].
    destruct (currentSearchResultIndex s =? length (searchResults s) - 1) eqn:E.
    + assert (Hlow : - length (searchResults s) <= currentSearchResultIndex s + 1)
        by (unfold index_in_range, length in *; lia).
      specialize (Hmove 1 Hlow).
      destruct (moveResultIndex cb 1 s) as [log [s'|e]]; simpl in *;
        [assumption | contradiction].
    + exact Hinv.
  - unfold performSearch, call_getSearchResults, call_jumpToResult.
    destruct b; [destruct (jumpToResult P)|]; simpl;
      try (unfold index_in_range in *; simpl; lia).
    split; reflexivity.
  - unfold index_in_range; simpl; lia.
Qed.

End Facts.

(** ** The properties on concrete hosts *)

(** C2: three results, index 0, [moveResultIndex(-5)]: the raw sum -5 is
    negative, one length is added, and [-2 % 3] is -2.  The index becomes
    -2, where [(0 + -5) mod 3] is 1, and the match handed to
    [jumpToResult] is [undefined]. *)
Theorem moveResultIndex_below_minus_length_is_negative :
  moveResultIndex Supplied (-5) (threeAt 0)
  = ([JumpToResult None ThenResolve], Ok (threeAt (-2)))
  /\ (currentSearchResultIndex (threeAt 0) + -5)
       mod length (searchResults (threeAt 0)) = 1
  /\ wrapIndex 0 (-5) 3 = -2
  /\ ~ index_in_range (threeAt (-2)).
Proof.
  repeat split. unfold index_in_range, length; simpl; lia.
Qed.

(** For a delta that keeps the raw sum at or above [-length], the index is
    the non-negative remainder; -1 from index 0 gives the last index. *)
Lemma moveResultIndex_minus_one_from_zero :
  moveResultIndex Supplied (-1) (threeAt 0)
  = ([JumpToResult (Some 2%nat) ThenResolve], Ok (threeAt 2)).
Proof. reflexivity. Qed.

(** C1, as worded, fails: typing "foo" into a freshly mounted bar makes the
    effect run an active search, which requests navigation to the first
    match; a passive search would have made the search call only. *)
Lemma search_input_change_is_not_passive :
  let P := fooHost 3 Supplied in
  let r := dispatch Supplied P (OnSearchStringChange (lit "foo"))
                    initialSearchState in
  fst r = [GetSearchResults (lit "foo")
             (mkObj 0%nat {| matchCase := false; useRegex := false |});
           JumpToResult (Some 0%nat) ThenFocusSearchBar]
  /\ existsb is_jump (fst r) = true
  /\ r <> (next <- onSearchStringChange (lit "foo") initialSearchState ;;
           performSearch P false next).
Proof.
  cbv zeta. split; [reflexivity|]. split; [reflexivity|]. discriminate.
Qed.

(** C3, as worded, fails at [performSearch]: after "foo" is found three
    times and the cursor is moved to the last match, the document shrinks
    to one occurrence and the host asks for a passive search; the result
    list then has one element and the index is still 2. *)
Lemma performSearch_can_leave_index_out_of_range :
  exists s s',
    snd (run Supplied
             [(fooHost 3 Supplied, OnSearchStringChange (lit "foo"));
              (fooHost 3 Supplied, MoveResultIndex 1);
              (fooHost 3 Supplied, MoveResultIndex 1)]
             initialSearchState) = Ok s
    /\ index_in_range s
    /\ snd (handler Supplied (fooHost 1 Supplied) (PerformSearch false) s) = Ok s'
    /\ currentSearchResultIndex s' = 2
    /\ length (searchResults s') = 1
    /\ ~ index_in_range s'.
Proof.
  exists {| searchString := lit "foo"; replaceString := [];
            searchResults := [0; 1; 2]%nat; currentSearchResultIndex := 2;
            searchOptions := searchOptions (threeAt 0) |}.
  exists {| searchString := lit "foo"; replaceString := [];
            searchResults := [0]%nat; currentSearchResultIndex := 2;
            searchOptions := searchOptions (threeAt 0) |}.
  split; [reflexivity|]. split; [unfold index_in_range, length; simpl; lia|].
  split; [reflexivity|]. split; [reflexivity|]. split; [reflexivity|].
  unfold index_in_range, length; simpl; lia.
Qed.

(** The amended C1 on a concrete host. *)
Lemma search_input_change_triggers_one_active_search_witness :
  dispatch Supplied (fooHost 3 Supplied) (OnSearchStringChange (lit "foo")) noMatch
  = active_search_of (fooHost 3 Supplied) noMatch (lit "foo") (searchOptions noMatch).
Proof.
  refine (proj2 (proj1 (search_input_change_triggers_one_active_search
            Supplied (fooHost 3 Supplied) noMatch (lit "foo")
            (mkObj 1%nat {| matchCase := true; useRegex := false |}) _ _))).
  - discriminate.
  - reflexivity.
Defined.

(** The amended C3 on a concrete host: a passive search that finds three
    matches while the cursor is on the third. *)
Lemma index_in_range_preserved_witness :
  index_in_range (threeAt 2)
  /\ match snd (handler Supplied (fooHost 3 Supplied) (PerformSearch false) (threeAt 2)) with
     | Ok s' => index_in_range s'
     | Throw _ => PerformSearch false = PerformSearch true
                  /\ jumpToResult (fooHost 3 Supplied) = Undefined
     end.
Proof.
  assert (H : index_in_range (threeAt 2)) by (unfold index_in_range, length; simpl; lia).
  split; [exact H|].
  refine (proj2 (index_in_range_preserved Supplied (fooHost 3 Supplied)
                   (PerformSearch false) (threeAt 2) H _)).
  unfold keeps_index_in_range, length; simpl; lia.
Defined.

(** C5 on three matches for "foo": replace-all with the cursor on the
    first match, and the scenario of the specification, a single
    replacement with the cursor on the last one. *)
Lemma onReplace_last_index_and_all_witness :
  onReplace Supplied true (threeAt 0)
  = ([Replace [Some 0; Some 1; Some 2]%nat (lit "bar")], Ok (threeAt 0))
  /\ exists m,
      index (searchResults (threeAt 2)) 2 = Some m
      /\ onReplace Supplied false (threeAt 2)
         = ([Replace [Some m] (lit "bar"); JumpToResult (Some 0%nat) ThenResolve],
            Ok (threeAt 0)).
Proof.
  split.
  - refine (proj2 (proj2 (onReplace_last_index_and_all Supplied (threeAt 0) _))).
    discriminate.
  - destruct (onReplace_last_index_and_all Supplied (threeAt 2)) as (Hlast & _).
    + discriminate.
    + destruct Hlast as ((m & Hm & Hrep) & _); [reflexivity|].
      exists m. split; [exact Hm | exact Hrep].
Defined.

(** C7 on the scenario of the specification: no match, [moveResultIndex(1)]. *)
Lemma moveResultIndex_no_results_witness :
  moveResultIndex Supplied 1 noMatch = ([Resolve], Ok noMatch).
Proof.
  exact (proj1 (moveResultIndex_no_results Supplied (fooHost 0 Supplied) 1 noMatch
                  eq_refl)).
Defined.

End SearchAndReplaceFacts.

(* ===================================================================== *)
(** * Properties of the tag creator *)
(* ===================================================================== *)

Module CreateDataTableTagFacts.
Import JS JSFacts CreateDataTableTag.

Lemma range_members_In (a lo : code_unit) (n : nat) :
  In a (range_members lo n) <-> (lo <= a < lo + N.of_nat n)%N.
Proof.
  revert lo; induction n as [|n IH]; intros lo; simpl range_members.
  - simpl. lia.
  - simpl In. rewrite IH. lia.
Qed.

Lemma tag_class_members (a : code_unit) :
  In a (class_members [(97, 122); (48, 57)]%N)
  <-> ((97 <= a <= 122) \/ (48 <= a <= 57))%N.
Proof.
  unfold class_members. cbn [flat_map fst snd].
  rewrite !in_app_iff, !range_members_In. simpl In. lia.
Qed.

(** One more iteration of a quantifier, then the rest of the iterations,
    or none when the lower bound has been met. *)
Lemma matcher_quantified_succ (up : code_unit -> code_unit) (ic : bool)
      (r : regex) (min max pos : nat) (rest : str) (k : nat -> str -> bool) :
  matcher up ic (Quantified r min (S max)) pos rest k
  = matcher up ic r pos rest
            (fun p s => matcher up ic (Quantified r (Nat.pred min) max) p s k)
    || (Nat.eqb min 0 && k pos rest).
Proof. reflexivity. Qed.

Lemma matcher_quantified_zero (up : code_unit -> code_unit) (ic : bool)
      (r : regex) (min pos : nat) (rest : str) (k : nat -> str -> bool) :
  matcher up ic (Quantified r min 0) pos rest k = Nat.eqb min 0 && k pos rest.
Proof. reflexivity. Qed.

(** A quantified class consumes some number [n] of class members, with
    [n] between the bounds, and continues after them. *)
Lemma matcher_quantified_class (up : code_unit -> code_unit) (ic : bool)
      (ranges : list (code_unit * code_unit)) (k : nat -> str -> bool)
      (max min pos : nat) (rest : str) :
  matcher up ic (Quantified (CharClass ranges) min max) pos rest k = true
  <-> exists n,
      (min <= n <= max)%nat
      /\ (n <= List.length rest)%nat
      /\ Forall (fun c => class_matches up ic ranges c = true) (firstn n rest)
      /\ k (pos + n)%nat (skipn n rest) = true.
Proof.
  revert min pos rest. induction max as [|max IH]; intros min pos rest.
  - rewrite matcher_quantified_zero, andb_true_iff, Nat.eqb_eq. split.
    + intros [-> Hk]. exists 0%nat. rewrite Nat.add_0_r. simpl.
      repeat split; try lia; [constructor | exact Hk].
    + intros (n & Hn & _ & _ & Hk). assert (n = 0)%nat as -> by lia.
      rewrite Nat.add_0_r in Hk. simpl in Hk. split; [lia | exact Hk].
  - rewrite matcher_quantified_succ, orb_true_iff, andb_true_iff, Nat.eqb_eq.
    split.
    + intros [Hstep | [-> Hk]].
      * destruct rest as [|ch rest']; [discriminate|].
        cbn [matcher] in Hstep. apply andb_true_iff in Hstep as [Hch Hrest].
        apply IH in Hrest as (n & Hn & Hlen & Hall & Hk).
        exists (S n). rewrite Nat.add_succ_r. simpl.
        repeat split; try lia; [constructor; assumption | exact Hk].
      * exists 0%nat. rewrite Nat.add_0_r. simpl.
        repeat split; try lia; [constructor | exact Hk].
    + intros (n & Hn & Hlen & Hall & Hk). destruct n as [|n].
      * right. rewrite Nat.add_0_r in Hk. simpl in Hk. split; [lia | exact Hk].
      * left. destruct rest as [|ch rest']; [simpl in Hlen; lia|].
        simpl in Hlen, Hall, Hk. inversion Hall as [|? ? Hch Hall']; subst.
        cbn [matcher]. rewrite Hch. simpl. apply IH.
        exists n. rewrite Nat.add_succ_r in Hk.
        repeat split; try lia; assumption.
Qed.

Section Validator.
(** The Unicode upper-case mapping is a parameter; on ASCII it is the
    ASCII one. *)
Variable toUpperCase : code_unit -> code_unit.
Hypothesis toUpperCase_ascii :
  forall c, (c < 128)%N -> toUpperCase c = ascii_upper c.

Lemma canonicalize_ascii (c : code_unit) :
  (c < 128)%N -> canonicalize toUpperCase true c = ascii_upper c.
Proof.
  intros H. unfold canonicalize. rewrite (toUpperCase_ascii c H).
  replace (128 <=? c)%N with false by (symmetry; apply N.leb_gt; exact H).
  reflexivity.
Qed.

Lemma canonicalize_non_ascii (c : code_unit) :
  (128 <= c)%N -> (128 <= canonicalize toUpperCase true c)%N.
Proof.
  intros H. unfold canonicalize.
  replace (128 <=? c)%N with true by (symmetry; apply N.leb_le; exact H).
  simpl. destruct (toUpperCase c <? 128)%N eqn:E; [exact H|].
  apply N.ltb_ge in E. exact E.
Qed.

Lemma ascii_upper_bound (c : code_unit) : (c < 128)%N -> (ascii_upper c < 128)%N.
Proof.
  intros H. unfold ascii_upper.
  destruct ((97 <=? c) && (c <=? 122))%N eqn:E; [|exact H].
  apply andb_true_iff in E as [E1 E2]. apply N.leb_le in E1, E2. lia.
Qed.

(** The class [[a-z0-9]] under the i flag matches the ASCII letters of
    both cases and the digits, and no other code unit. *)
Lemma tag_class_matches (ch : code_unit) :
  class_matches toUpperCase true [(97, 122); (48, 57)]%N ch = true
  <-> is_alnum ch.
Proof.
  unfold class_matches, is_alnum. rewrite existsb_exists. split.
  - intros (a & Hin & E). apply tag_class_members in Hin. apply N.eqb_eq in E.
    assert (Ha : (a < 128)%N) by lia.
    rewrite (canonicalize_ascii a Ha) in E.
    destruct (N.lt_ge_cases ch 128) as [Hch | Hch].
    + rewrite (canonicalize_ascii ch Hch) in E. revert E. unfold ascii_upper.
      destruct ((97 <=? a) && (a <=? 122))%N eqn:Ea;
        destruct ((97 <=? ch) && (ch <=? 122))%N eqn:Ec;
        rewrite ?andb_true_iff, ?andb_false_iff, ?N.leb_le, ?N.leb_gt in *;
        lia.
    + pose proof (canonicalize_non_ascii ch Hch).
      pose proof (ascii_upper_bound a Ha). lia.
  - intros H.
    assert (Hch : (ch < 128)%N) by lia.
    exists (if (65 <=? ch)%N && (ch <=? 90)%N then (ch + 32)%N else ch).
    split.
    + apply tag_class_members.
      destruct ((65 <=? ch) && (ch <=? 90))%N eqn:E;
        rewrite ?andb_true_iff, ?andb_false_iff, ?N.leb_le, ?N.leb_gt in *; lia.
    + apply N.eqb_eq. rewrite (canonicalize_ascii ch Hch).
      destruct ((65 <=? ch) && (ch <=? 90))%N eqn:E.
      * apply andb_true_iff in E as [E1 E2]. apply N.leb_le in E1, E2.
        rewrite canonicalize_ascii by lia. unfold ascii_upper.
        replace ((97 <=? ch + 32) && (ch + 32 <=? 122))%N with true
          by (symmetry; apply andb_true_iff; split; apply N.leb_le; lia).
        replace ((97 <=? ch) && (ch <=? 122))%N with false
          by (symmetry; apply andb_false_iff; left; apply N.leb_gt; lia).
        lia.
      * apply canonicalize_ascii. exact Hch.
Qed.

(** The whole pattern matches at an offset exactly when the offset is 0
    and the input is 1 to 255 letters or digits. *)
Lemma tag_regex_matches_at (pos : nat) (rest : str) :
  matcher toUpperCase (ignoreCase tag_regex) (source tag_regex) pos rest
          (fun _ _ => true) = true
  <-> pos = 0%nat /\ matches_tag_pattern rest.
Proof.
  unfold matches_tag_pattern.
  change (Nat.eqb pos 0
          && matcher toUpperCase true
               (Quantified (CharClass [(97, 122); (48, 57)]%N) 1 255) pos rest
               (fun p s => matcher toUpperCase true AssertEnd p s (fun _ _ => true))
          = true
          <-> pos = 0%nat
              /\ (1 <= List.length rest <= 255)%nat /\ Forall is_alnum rest).
  rewrite andb_true_iff, Nat.eqb_eq.
  rewrite matcher_quantified_class. split.
  - intros (Hpos & n & Hn & Hlen & Hall & Hend). split; [exact Hpos|].
    cbn [matcher] in Hend.
    destruct (skipn n rest) eqn:Hskip; [|discriminate].
    assert (Hn' : n = List.length rest).
    { apply (f_equal (@List.length _)) in Hskip.
      rewrite length_skipn in Hskip. simpl in Hskip. lia. }
    subst n. rewrite firstn_all in Hall. split; [lia|].
    eapply Forall_impl; [|exact Hall]. intros c. apply tag_class_matches.
  - intros (Hpos & Hlen & Hall). split; [exact Hpos|].
    exists (List.length rest). rewrite firstn_all, skipn_all.
    repeat split; try lia.
    eapply Forall_impl; [|exact Hall]. intros c. apply tag_class_matches.
Qed.

Lemma exec_from_later (rest : str) (pos : nat) :
  (0 < pos)%nat -> exec_from toUpperCase tag_regex pos rest = None.
Proof.
  revert pos; induction rest as [|c rest IH]; intros pos Hpos;
    cbn [exec_from];
    destruct (matcher toUpperCase (ignoreCase tag_regex) (source tag_regex)
                      pos _ (fun _ _ => true)) eqn:E;
    try (apply tag_regex_matches_at in E; lia); try reflexivity.
  apply IH. lia.
Qed.

Lemma str_match_tag_regex (s : str) :
  (exists i, str_match toUpperCase s tag_regex = Some i) <-> matches_tag_pattern s.
Proof.
  unfold str_match.
  destruct (matcher toUpperCase (ignoreCase tag_regex) (source tag_regex)
                    0%nat s (fun _ _ => true)) eqn:E.
  - assert (Hs : matches_tag_pattern s) by (apply tag_regex_matches_at in E; tauto).
    split; [intros _; exact Hs | intros _].
    exists 0%nat. destruct s; cbn [exec_from]; rewrite E; reflexivity.
  - assert (Hs : ~ matches_tag_pattern s).
    { intros H. assert (Ht : 0%nat = 0%nat /\ matches_tag_pattern s) by tauto.
      apply tag_regex_matches_at in Ht. congruence. }
    split; [|tauto]. intros [i Hi]. exfalso.
    destruct s as [|c s]; cbn [exec_from] in Hi; rewrite E in Hi;
      [discriminate|].
    rewrite exec_from_later in Hi by lia. discriminate.
Qed.

(** C6: the validator accepts [s] exactly when [s] is 1 to 255 characters
    long, each an ASCII letter of either case or a digit, and [s] is not
    one of the existing tag names (compared exactly, case included); it
    is a total boolean function, so every other input is answered [false]. *)
Theorem isValidCheck_accepts_iff (tags : option (list ITag)) (s : str) :
  (isValidCheck toUpperCase tags s = true
   <-> matches_tag_pattern s /\ ~ In s (existingTags tags))
  /\ (isValidCheck toUpperCase tags s = false
      <-> ~ (matches_tag_pattern s /\ ~ In s (existingTags tags))).
Proof.
  assert (H : isValidCheck toUpperCase tags s = true
              <-> matches_tag_pattern s /\ ~ In s (existingTags tags)).
  { unfold isValidCheck.
    destruct (str_match toUpperCase s tag_regex) as [i|] eqn:E.
    - assert (Hs : matches_tag_pattern s)
        by (apply str_match_tag_regex; exists i; exact E).
      rewrite negb_true_iff. split.
      + intros Hinc. split; [exact Hs|]. intros Hin.
        apply includes_In in Hin. congruence.
      + intros [_ Hnin]. destruct (includes (existingTags tags) s) eqn:Hinc;
          [|reflexivity]. apply includes_In in Hinc. contradiction.
    - split; [discriminate|]. intros [Hs _].
      apply str_match_tag_regex in Hs as [i Hi]. congruence. }
  split; [exact H|].
  rewrite <- H. destruct (isValidCheck toUpperCase tags s); split;
    congruence.
Qed.

End Validator.

(** C9: [handleCreateTag(val)] hands the store the action
    [createTableTag(tableId, val)]; while the request is pending the widget
    is as it was, and once it has settled [showSelect] is [false], by the
    same callback on the fulfilled and on the rejected path.  The payload
    of either path does not reach the widget; the outcome stays in the
    promise the handler drops. *)
Theorem handleCreateTag_collapses_when_settled
        {V E : Type} (tableId : Z) (val : str)
        (request : redux_action -> promise V E) (w : widget) :
  handleCreateTag tableId val request w
  = (CreateTableTag tableId val,
     match request (CreateTableTag tableId val) with
     | Pending => w
     | Fulfilled _ => {| showSelect := false |}
     | Rejected _ => {| showSelect := false |}
     end,
     request (CreateTableTag tableId val))
  /\ (forall (v : V) (e : E),
         snd (fst (handleCreateTag tableId val (fun _ => @Fulfilled V E v) w))
         = snd (fst (handleCreateTag tableId val (fun _ => @Rejected V E e) w))
         /\ showSelect
              (snd (fst (handleCreateTag tableId val (fun _ => @Rejected V E e) w)))
            = false).
Proof.
  split.
  - unfold handleCreateTag, createTag, finally_, setShowSelect.
    destruct (request (CreateTableTag tableId val)); reflexivity.
  - intros v e. split; reflexivity.
Qed.

(** ** The validator on concrete inputs *)

Lemma example_toUpperCase_ascii (c : code_unit) :
  (c < 128)%N -> Examples.toUpperCase c = ascii_upper c.
Proof.
  intros H. unfold Examples.toUpperCase.
  replace (c =? 305)%N with false by (symmetry; apply N.eqb_neq; lia).
  replace (c =? 383)%N with false by (symmetry; apply N.eqb_neq; lia).
  reflexivity.
Defined.

(** C6 on a tag list holding "sales": "Sales2024" is accepted. *)
Lemma isValidCheck_accepts_iff_witness :
  isValidCheck Examples.toUpperCase (Some [mkTag (lit "sales")]) (lit "Sales2024")
  = true
  <-> matches_tag_pattern (lit "Sales2024")
      /\ ~ In (lit "Sales2024") (existingTags (Some [mkTag (lit "sales")])).
Proof.
  exact (proj1 (isValidCheck_accepts_iff Examples.toUpperCase
                  example_toUpperCase_ascii
                  (Some [mkTag (lit "sales")]) (lit "Sales2024"))).
Defined.

Example isValidCheck_new_tag :
  isValidCheck Examples.toUpperCase (Some [mkTag (lit "sales")]) (lit "Sales2024")
  = true.
Proof. vm_compute. reflexivity. Qed.

Example isValidCheck_existing_tag :
  isValidCheck Examples.toUpperCase (Some [mkTag (lit "sales")]) (lit "sales")
  = false.
Proof. vm_compute. reflexivity. Qed.

Example isValidCheck_other_case_of_existing_tag :
  isValidCheck Examples.toUpperCase (Some [mkTag (lit "sales")]) (lit "SALES")
  = true.
Proof. vm_compute. reflexivity. Qed.

Example isValidCheck_no_tags_prop :
  isValidCheck Examples.toUpperCase None (lit "q3") = true.
Proof. vm_compute. reflexivity. Qed.

Example isValidCheck_empty : isValidCheck Examples.toUpperCase None [] = false.
Proof. vm_compute. reflexivity. Qed.

Example isValidCheck_punctuation :
  isValidCheck Examples.toUpperCase None (lit "top-10") = false.
Proof. vm_compute. reflexivity. Qed.

Example isValidCheck_trailing_newline :
  isValidCheck Examples.toUpperCase None (lit "sales" ++ [10%N]) = false.
Proof. vm_compute. reflexivity. Qed.

(** The long s (U+017F) upper-cases to S, and is still not in the class. *)
Example isValidCheck_long_s :
  isValidCheck Examples.toUpperCase None [383%N] = false.
Proof. vm_compute. reflexivity. Qed.

Example isValidCheck_255_characters :
  isValidCheck Examples.toUpperCase None (repeat 97%N 255) = true.
Proof. vm_compute. reflexivity. Qed.

Example isValidCheck_256_characters :
  isValidCheck Examples.toUpperCase None (repeat 97%N 256) = false.
Proof. vm_compute. reflexivity. Qed.

End CreateDataTableTagFacts.

(* ===================================================================== *)
(** * Further properties of the hook *)
(* ===================================================================== *)

Module HookFacts.
Import JS JSFacts SearchAndReplace SearchAndReplaceFacts HookRuns.
Local Open Scope hook_scope.

Section Navigation.
Context {ISearchResult : Type}.
Local Abbreviation State := (ISearchAndReplaceState ISearchResult).
Local Abbreviation Props := (ISearchAndReplaceProps ISearchResult).

Lemma length_pos (s : State) : searchResults s <> [] -> 0 < length (searchResults s).
Proof. unfold length. destruct (searchResults s); [contradiction | simpl; lia]. Qed.

Lemma with_index_same (s : State) : with_index s (currentSearchResultIndex s) = s.
Proof. destruct s; reflexivity. Qed.

(** [moveResultIndex] on a list that is not empty, in one equation. *)
Lemma moveResultIndex_step (cb : optional_callback) (delta : Z) (s : State) :
  searchResults s <> [] ->
  moveResultIndex cb delta s
  = (let i := wrapIndex (currentSearchResultIndex s) delta
                        (length (searchResults s)) in
     ([match cb with
       | Supplied => JumpToResult (index (searchResults s) i) ThenResolve
       | Undefined => Resolve
       end],
      Ok (with_index s i))).
Proof.
  intros Hne. pose proof (length_pos s Hne) as Hlen. unfold moveResultIndex.
  replace (length (searchResults s) =? 0) with false
    by (symmetry; apply Z.eqb_neq; lia).
  destruct cb; reflexivity.
Qed.

Lemma moveResultIndex_empty (cb : optional_callback) (delta : Z) (s : State) :
  searchResults s = [] -> moveResultIndex cb delta s = ([Resolve], Ok s).
Proof. intros H. unfold moveResultIndex. rewrite H. reflexivity. Qed.

(** An event whose handler leaves the search input alone is the handler
    alone: the effect stays quiet. *)
Lemma dispatch_quiet (cb : optional_callback) (P : Props) (a : action)
      (s s' : State) (log : list (host_call ISearchResult)) :
  handler cb P a s = (log, Ok s') -> deps_changed s s' = false ->
  dispatch cb P a s = (log, Ok s').
Proof.
  intros Hh Hd. unfold dispatch, useEffect. rewrite Hh. simpl. rewrite Hd.
  simpl. now rewrite app_nil_r.
Qed.

Lemma deps_with_index (s : State) (i : Z) : deps_changed s (with_index s i) = false.
Proof. unfold deps_changed. simpl. now rewrite str_eqb_refl, Object_is_refl. Qed.

(** X1: with results present, sums that are exact in double arithmetic
    and a raw sum not below [-length], [moveResultIndex(delta)] with a
    callback makes exactly one navigation request, for the match at
    [(index + delta) mod length], which exists; without a callback it
    resolves at once.  Either way the new index is that remainder and
    nothing else changes. *)
Theorem moveResultIndex_navigates_to_target
        (cb : optional_callback) (delta : Z) (s : State) :
  searchResults s <> [] ->
  exact_move s delta ->
  - length (searchResults s) <= currentSearchResultIndex s + delta ->
  let i := (currentSearchResultIndex s + delta) mod length (searchResults s) in
  exists m,
    index (searchResults s) i = Some m
    /\ In m (searchResults s)
    /\ moveResultIndex cb delta s
       = ([match cb with
           | Supplied => JumpToResult (Some m) ThenResolve
           | Undefined => Resolve
           end],
          Ok (with_index s i)).
Proof.
  intros Hne _ Hlow i. pose proof (length_pos s Hne) as Hlen.
  assert (Hi : 0 <= i < length (searchResults s))
    by (apply Z.mod_pos_bound; exact Hlen).
  destruct (index_defined (searchResults s) i Hi) as (m & Hm & Hin).
  exists m. split; [exact Hm|]. split; [exact Hin|].
  rewrite moveResultIndex_step by exact Hne. cbv zeta.
  rewrite wrapIndex_mod by assumption. fold i. rewrite Hm. reflexivity.
Qed.


(** X3: two moves in a row end on the index one move by the sum of the
    deltas ends on, as long as every sum formed on the way is exact in
    double arithmetic and no raw sum falls below [-length]. *)
Theorem moveResultIndex_twice (cb : optional_callback) (d1 d2 : Z) (s : State) :
  index_in_range s ->
  exact_move s d1 ->
  exact_move (with_index s (wrapIndex (currentSearchResultIndex s) d1
                                      (length (searchResults s)))) d2 ->
  exact_move s (d1 + d2) ->
  - length (searchResults s) <= currentSearchResultIndex s + d1 ->
  - length (searchResults s) <= d2 ->
  - length (searchResults s) <= currentSearchResultIndex s + d1 + d2 ->
  snd (next <- moveResultIndex cb d1 s ;; moveResultIndex cb d2 next)
  = snd (moveResultIndex cb (d1 + d2) s).
Proof.
  intros Hinv _ _ _ H1 H2 H12.
  destruct (searchResults s) as [|m ms] eqn:Hres.
  - rewrite !(moveResultIndex_empty cb _ s Hres). simpl.
    rewrite (moveResultIndex_empty cb _ s Hres). reflexivity.
  - assert (Hne : searchResults s <> []) by (rewrite Hres; discriminate).
    pose proof (length_pos s Hne) as Hlen. rewrite <- Hres in *.
    assert (Harith :
              wrapIndex (wrapIndex (currentSearchResultIndex s) d1
                                   (length (searchResults s)))
                        d2 (length (searchResults s))
              = wrapIndex (currentSearchResultIndex s) (d1 + d2)
                          (length (searchResults s))).
    { pose proof (wrapIndex_range (currentSearchResultIndex s) d1 _ Hlen H1) as Hi1.
      rewrite (wrapIndex_mod _ d2) by lia.
      rewrite (wrapIndex_mod _ d1) by assumption.
      rewrite (wrapIndex_mod _ (d1 + d2)) by lia.
      rewrite Z.add_mod_idemp_l by lia. f_equal. lia. }
    rewrite (moveResultIndex_step cb d1 s Hne).
    rewrite (moveResultIndex_step cb (d1 + d2) s Hne). cbv zeta.
    unfold bind.
    rewrite (moveResultIndex_step cb d2 (with_index s _) Hne). cbv zeta.
    simpl. rewrite Harith. reflexivity.
Qed.

Lemma snd_bind_ok {A B : Type} (log : list (host_call ISearchResult)) (a : A)
      (f : A -> M ISearchResult B) :
  bind (log, Ok a) f = (log ++ fst (f a), snd (f a)).
Proof. unfold bind. destruct (f a); reflexivity. Qed.

Lemma run_repeat_move (cb : optional_callback) (P : Props) (delta : Z) (k : nat) :
  forall s : State,
    searchResults s <> [] -> index_in_range s ->
    - length (searchResults s) <= delta ->
    run cb (repeat (P, MoveResultIndex delta) k) s
    = (map (fun j => move_call cb s
                       ((currentSearchResultIndex s + (Z.of_nat j + 1) * delta)
                          mod length (searchResults s)))
           (seq 0 k),
       Ok (with_index s ((currentSearchResultIndex s + Z.of_nat k * delta)
                           mod length (searchResults s)))).
Proof.
  induction k as [|k IH]; intros s Hne Hinv Hd;
    pose proof (length_pos s Hne) as Hlen;
    assert (Hi : 0 <= currentSearchResultIndex s < length (searchResults s))
      by (unfold index_in_range in Hinv; lia).
  - simpl run. unfold ret. simpl map.
    rewrite Z.add_0_r, Z.mod_small by exact Hi. now rewrite with_index_same.
  - cbn [repeat run].
    assert (Hlow : - length (searchResults s) <= currentSearchResultIndex s + delta)
      by lia.
    assert (Hstep : dispatch cb P (MoveResultIndex delta) s
                    = moveResultIndex cb delta s).
    { rewrite (moveResultIndex_step cb delta s Hne). cbv zeta.
      apply dispatch_quiet; [|apply deps_with_index].
      apply (moveResultIndex_step cb delta s Hne). }
    rewrite Hstep, (moveResultIndex_step cb delta s Hne). cbv zeta.
    rewrite wrapIndex_mod by assumption.
    set (i1 := (currentSearchResultIndex s + delta) mod length (searchResults s)).
    assert (Hi1 : 0 <= i1 < length (searchResults s))
      by (apply Z.mod_pos_bound; exact Hlen).
    assert (Hinv1 : index_in_range (with_index s i1))
      by (unfold index_in_range; simpl; lia).
    rewrite snd_bind_ok, (IH (with_index s i1) Hne Hinv1 Hd).
    simpl fst. simpl snd.
    cbn [with_index searchString replaceString searchResults
         currentSearchResultIndex searchOptions].
    f_equal.
    + rewrite <- cons_seq, <- seq_shift. cbn [map app]. rewrite map_map.
      f_equal.
      * unfold move_call. destruct cb; [|reflexivity].
        do 2 f_equal. unfold i1. f_equal. lia.
      * apply map_ext. intros j. unfold move_call.
        cbn [searchResults currentSearchResultIndex with_index].
        destruct cb; [|reflexivity]. do 2 f_equal.
        subst i1. rewrite Z.add_mod_idemp_l by lia. f_equal. lia.
    + f_equal. unfold with_index.
      cbn [searchString replaceString searchResults currentSearchResultIndex
           searchOptions].
      f_equal. subst i1. rewrite Z.add_mod_idemp_l by lia. f_equal. lia.
Qed.

Lemma move_call_not_search (cb : optional_callback) (s : State) (i : Z) :
  is_search (move_call cb s i) = false.
Proof. destruct cb; reflexivity. Qed.

(** X4: with [N] results, the index in range and every sum exact in
    double arithmetic, [N] moves by the same [delta >= -N] (next [N]
    times, or previous [N] times) bring the state back to where it
    started.  The log holds one call per move, the [j]-th being the
    navigation request for the match at [(index + j * delta) mod N] (or
    the direct resolve where no callback exists), and no call of the
    search function. *)
Theorem moveResultIndex_full_cycle
        (cb : optional_callback) (P : Props) (delta : Z) (s : State) :
  searchResults s <> [] ->
  index_in_range s ->
  - length (searchResults s) <= delta ->
  (forall i, 0 <= i < length (searchResults s) ->
             exact_move (with_index s i) delta) ->
  exists log,
    run cb (repeat (P, MoveResultIndex delta) (List.length (searchResults s))) s
    = (log, Ok s)
    /\ log = map (fun j => move_call cb s
                             ((currentSearchResultIndex s
                               + (Z.of_nat j + 1) * delta)
                                mod length (searchResults s)))
                 (seq 0 (List.length (searchResults s)))
    /\ filter is_search log = []
    /\ List.length log = List.length (searchResults s).
Proof.
  intros Hne Hinv Hd _. pose proof (length_pos s Hne) as Hlen.
  eexists. split; [|split; [reflexivity | split]].
  - rewrite (run_repeat_move cb P delta _ s Hne Hinv Hd). f_equal. f_equal.
    fold (length (searchResults s)).
    rewrite (Z.mul_comm (length (searchResults s)) delta), Z.mod_add by lia.
    rewrite Z.mod_small by (unfold index_in_range in Hinv; lia).
    apply with_index_same.
  - induction (seq 0 (List.length (searchResults s))) as [|j js IH];
      [reflexivity|].
    cbn [map filter]. now rewrite move_call_not_search.
  - now rewrite length_map, length_seq.
Qed.

(** X5: [onReplace(false)] away from the last index hands the host the
    one match under the cursor and does nothing else: no navigation, and
    the state, the index included, stays as it was. *)
Theorem onReplace_not_last_keeps_state (cb : optional_callback) (s : State) :
  index_in_range s ->
  currentSearchResultIndex s <> length (searchResults s) - 1 ->
  searchResults s <> [] ->
  exists m,
    index (searchResults s) (currentSearchResultIndex s) = Some m
    /\ onReplace cb false s = ([Replace [Some m] (replaceString s)], Ok s).
Proof.
  intros Hinv Hnl Hne. pose proof (length_pos s Hne) as Hlen.
  destruct (index_defined (searchResults s) (currentSearchResultIndex s))
    as (m & Hm & _); [unfold index_in_range in Hinv; lia|].
  exists m. split; [exact Hm|]. unfold onReplace. rewrite Hm.
  replace (currentSearchResultIndex s =? length (searchResults s) - 1)
    with false by (symmetry; apply Z.eqb_neq; exact Hnl).
  reflexivity.
Qed.

(** X6: with no results, whatever the index, the replace operations still
    call the host: [onReplace(false)] passes a one-element list holding
    [undefined], and [onReplace(true)] passes the empty list.  The state
    is unchanged and no navigation is requested; only at the stale index
    -1, which equals [length - 1], does [onReplace(false)] go on to the
    [moveResultIndex(1)] that resolves at once. *)
Theorem onReplace_without_results (cb : optional_callback) (s : State) :
  searchResults s = [] ->
  onReplace cb false s
  = (Replace [None] (replaceString s)
       :: (if currentSearchResultIndex s =? -1 then [Resolve] else []),
     Ok s)
  /\ onReplace cb true s = ([Replace [] (replaceString s)], Ok s).
Proof.
  intros Hnil. split.
  - unfold onReplace. rewrite Hnil, index_nil.
    change (length (@nil ISearchResult) - 1) with (-1).
    destruct (currentSearchResultIndex s =? -1); [|reflexivity].
    now rewrite (moveResultIndex_empty cb 1 s Hnil).
  - unfold onReplace. rewrite Hnil. reflexivity.
Qed.

(** X7: entering the search string that is already there, or handing over
    the very options object that is already there, puts the index back to
    0 and nothing else: the effect does not run, so there is no search
    and no navigation to the match at the new index. *)
Theorem unchanged_input_resets_index_silently
        (cb : optional_callback) (P : Props) (s : State) :
  dispatch cb P (OnSearchStringChange (searchString s)) s
  = ([], Ok (with_index s 0))
  /\ dispatch cb P (OnSearchOptionsChange (searchOptions s)) s
     = ([], Ok (with_index s 0)).
Proof.
  split; apply dispatch_quiet; try reflexivity; apply deps_with_index.
Qed.

(** Navigation and replacement end in the state they started from, up to
    the index, and do not call the search function. *)
Lemma navigation_frame (cb : optional_callback) (P : Props) (a : action) (s : State) :
  (exists delta, a = MoveResultIndex delta) \/ (exists all, a = OnReplace all) ->
  exists log i,
    handler cb P a s = (log, Ok (with_index s i))
    /\ filter is_search log = [].
Proof.
  assert (Hmove : forall delta, exists log i,
               moveResultIndex cb delta s = (log, Ok (with_index s i))
               /\ filter is_search log = []).
  { intros delta. destruct (searchResults s) as [|m ms] eqn:Hres.
    - exists [Resolve], (currentSearchResultIndex s).
      rewrite with_index_same. split; [|reflexivity].
      now apply moveResultIndex_empty.
    - assert (Hne : searchResults s <> []) by (rewrite Hres; discriminate).
      rewrite (moveResultIndex_step cb delta s Hne). cbv zeta.
      do 2 eexists. split; [reflexivity|]. destruct cb; reflexivity. }
  intros [[delta ->] | [all ->]]; simpl handler.
  - apply Hmove.
  - unfold onReplace. destruct all.
    + exists [Replace (map Some (searchResults s)) (replaceString s)],
        (currentSearchResultIndex s).
      rewrite with_index_same. split; reflexivity.
    + destruct (currentSearchResultIndex s =? length (searchResults s) - 1).
      * destruct (Hmove 1) as (log & i & Hm & Hf). rewrite Hm.
        exists (Replace [index (searchResults s) (currentSearchResultIndex s)]
                        (replaceString s) :: log), i.
        split; [reflexivity|]. simpl. exact Hf.
      * exists [Replace [index (searchResults s) (currentSearchResultIndex s)]
                        (replaceString s)],
          (currentSearchResultIndex s).
        rewrite with_index_same. split; reflexivity.
Qed.

(** X8: [moveResultIndex] and [onReplace], with any argument and in any
    state, never call the search function and never throw; they change
    no field but the index, so after a replacement the result list is
    the one from before the replacement. *)
Theorem navigation_and_replace_never_search
        (cb : optional_callback) (P : Props) (s : State) (delta : Z) (all : bool) :
  (exists log i,
      dispatch cb P (MoveResultIndex delta) s = (log, Ok (with_index s i))
      /\ filter is_search log = [])
  /\ (exists log i,
         dispatch cb P (OnReplace all) s = (log, Ok (with_index s i))
         /\ filter is_search log = []).
Proof.
  split.
  - destruct (navigation_frame cb P (MoveResultIndex delta) s)
      as (log & i & Hh & Hf); [left; eexists; reflexivity|].
    exists log, i. split; [|exact Hf].
    apply dispatch_quiet; [exact Hh | apply deps_with_index].
  - destruct (navigation_frame cb P (OnReplace all) s)
      as (log & i & Hh & Hf); [right; eexists; reflexivity|].
    exists log, i. split; [|exact Hf].
    apply dispatch_quiet; [exact Hh | apply deps_with_index].
Qed.

End Navigation.

Section Searching.
Context {ISearchResult : Type}.
Local Abbreviation State := (ISearchAndReplaceState ISearchResult).
Local Abbreviation Props := (ISearchAndReplaceProps ISearchResult).

(** [performSearch] in one equation. *)
Lemma performSearch_eq (P : Props) (b : bool) (s : State) :
  performSearch P b s
  = (GetSearchResults (searchString s) (searchOptions s)
       :: (if b then
             match jumpToResult P with
             | Supplied =>
                 [JumpToResult (index (fresh_results P s)
                                      (currentSearchResultIndex s))
                               ThenFocusSearchBar]
             | Undefined => []
             end
           else []),
     if b then
       match jumpToResult P with
       | Supplied => Ok (with_results s (fresh_results P s))
       | Undefined => Throw TypeError_not_a_function
       end
     else Ok (with_results s (fresh_results P s))).
Proof.
  unfold performSearch, call_getSearchResults, call_jumpToResult.
  destruct b; [destruct (jumpToResult P)|]; reflexivity.
Qed.

Lemma deps_with_results (s : State) (r : list ISearchResult) :
  deps_changed s (with_results s r) = false.
Proof. unfold deps_changed. simpl. now rewrite str_eqb_refl, Object_is_refl. Qed.

(** X9: the search the effect runs changes the result list and no other
    field, so the effect's dependencies are as before and the effect does
    not run again: one event leads to at most one search by the effect. *)
Theorem effect_search_does_not_retrigger (P : Props) (b : bool) (s s' : State) :
  snd (performSearch P b s) = Ok s' ->
  s' = with_results s (fresh_results P s)
  /\ deps_changed s s' = false
  /\ useEffect P s s' = ret s'.
Proof.
  rewrite performSearch_eq. simpl snd. intros H.
  assert (E : s' = with_results s (fresh_results P s)).
  { destruct b; [destruct (jumpToResult P)|]; congruence. }
  subst s'. split; [reflexivity|]. split; [apply deps_with_results|].
  unfold useEffect. now rewrite deps_with_results.
Qed.

Lemma useEffect_throws (P : Props) (s next : State) :
  snd (useEffect P s next) = Throw TypeError_not_a_function
  <-> jumpToResult P = Undefined /\ deps_changed s next = true.
Proof.
  unfold useEffect. destruct (deps_changed s next).
  - rewrite performSearch_eq. simpl. destruct (jumpToResult P); split;
      try tauto; try discriminate; intros [? ?]; discriminate.
  - simpl. split; [discriminate | intros [_ ?]; discriminate].
Qed.

Lemma dispatch_after_ok (cb : optional_callback) (P : Props) (a : action)
      (s next : State) (log : list (host_call ISearchResult)) :
  handler cb P a s = (log, Ok next) ->
  dispatch cb P a s = (log ++ fst (useEffect P s next), snd (useEffect P s next)).
Proof. intros H. unfold dispatch. rewrite H. apply snd_bind_ok. Qed.

(** X10: an event throws exactly when no [jumpToResult] callback exists
    and the event leads to an active search: [performSearch(true)] itself,
    a search string or options object that differs from the current one,
    or a [reset()] from a state whose search input is not the initial one.
    With a callback, no event throws. *)
Theorem dispatch_throws_iff (cb : optional_callback) (P : Props) (a : action) (s : State) :
  snd (dispatch cb P a s) = Throw TypeError_not_a_function
  <-> jumpToResult P = Undefined /\ triggers_active_search a s = true.
Proof.
  destruct a as [q | o | r | delta | all | b | ].
  - rewrite (dispatch_after_ok cb P (OnSearchStringChange q) s _ [] eq_refl). simpl snd.
    rewrite useEffect_throws. unfold deps_changed, triggers_active_search. simpl.
    now rewrite Object_is_refl, orb_false_r.
  - rewrite (dispatch_after_ok cb P (OnSearchOptionsChange o) s _ [] eq_refl). simpl snd.
    rewrite useEffect_throws. unfold deps_changed, triggers_active_search. simpl.
    now rewrite str_eqb_refl.
  - rewrite (dispatch_after_ok cb P (OnReplaceStringChange r) s _ [] eq_refl). simpl snd.
    rewrite useEffect_throws. unfold deps_changed, triggers_active_search. simpl.
    rewrite str_eqb_refl, Object_is_refl. simpl. tauto.
  - destruct (navigation_frame cb P (MoveResultIndex delta) s)
      as (log & i & Hh & _); [left; eexists; reflexivity|].
    rewrite (dispatch_after_ok cb P _ s _ log Hh). simpl snd.
    rewrite useEffect_throws, deps_with_index. simpl. tauto.
  - destruct (navigation_frame cb P (OnReplace all) s)
      as (log & i & Hh & _); [right; eexists; reflexivity|].
    rewrite (dispatch_after_ok cb P _ s _ log Hh). simpl snd.
    rewrite useEffect_throws, deps_with_index. simpl. tauto.
  - unfold dispatch. simpl handler. rewrite performSearch_eq.
    simpl triggers_active_search.
    destruct b; [destruct (jumpToResult P)|].
    + rewrite snd_bind_ok. simpl snd. rewrite useEffect_throws, deps_with_results.
      split; [intros [? ?]; discriminate | intros [? _]; discriminate].
    + simpl. tauto.
    + rewrite snd_bind_ok. simpl snd. rewrite useEffect_throws, deps_with_results.
      split; [intros [_ ?]; discriminate | intros [_ ?]; discriminate].
  - rewrite (dispatch_after_ok cb P Reset s _ [] eq_refl). simpl snd.
    rewrite useEffect_throws. simpl. tauto.
Qed.



End Searching.

End HookFacts.

(* ===================================================================== *)
(** * Properties of the [SearchAndReplace] component *)
(* ===================================================================== *)

Module OverlayFacts.
Import JS SearchAndReplace Overlay.

Section KeyHandling.
Context {KeyboardEvent ISearchResult : Type}.
Variable matchKeyPress : KeyboardEvent -> key_combo -> bool.

(** X12: after a key event the bar is shown exactly when the key is
    Cmd-F, or the bar was shown and the key is not esc; the bar is
    focused exactly when Cmd-F arrives while it is shown; and the event
    is stopped and its default prevented exactly when the key is Cmd-F or
    the bar is shown and the key is esc.  So a hidden bar lets esc pass,
    and Cmd-F wins over esc for an event that matches both. *)
Theorem onKeyDown_closed_form (evt : KeyboardEvent) (show : bool) :
  onKeyDown matchKeyPress evt show
  = (matchKeyPress evt Cmd_F || (show && negb (matchKeyPress evt Esc)),
     (if matchKeyPress evt Cmd_F && show then [FocusSearchBar] else [])
     ++ (if matchKeyPress evt Cmd_F || (show && matchKeyPress evt Esc)
         then [StopPropagation; PreventDefault] else [])).
Proof.
  unfold onKeyDown, focusSearchBar.
  destruct (matchKeyPress evt Cmd_F), show, (matchKeyPress evt Esc); reflexivity.
Qed.

(** X13: hiding the bar, by esc or by its hide control, and opening it
    again with Cmd-F gives back the component as it was: the query, the
    results and the cursor are kept while the bar is hidden. *)
Theorem hide_then_reopen_keeps_search_state
        (cb : optional_callback) (P : ISearchAndReplaceProps ISearchResult)
        (esc cmdF : KeyboardEvent) (o : overlay ISearchResult) :
  showSearchAndReplace o = true ->
  matchKeyPress esc Cmd_F = false ->
  matchKeyPress esc Esc = true ->
  matchKeyPress cmdF Cmd_F = true ->
  let hidden := {| showSearchAndReplace := false; searchState := searchState o |} in
  step matchKeyPress cb P (KeyDown esc) o
  = ([StopPropagation; PreventDefault], ([], Ok hidden))
  /\ step matchKeyPress cb P OnHide o = ([], ([], Ok hidden))
  /\ step matchKeyPress cb P (KeyDown cmdF) hidden
     = ([StopPropagation; PreventDefault], ([], Ok o)).
Proof.
  intros Hshow He1 He2 Hc. destruct o as [show st]. simpl in Hshow. subst show.
  cbv zeta. unfold step, onKeyDown. simpl.
  rewrite He1, He2, Hc. simpl. repeat split.
Qed.

End KeyHandling.

End OverlayFacts.

(* ===================================================================== *)
(** * Further properties of the tag validator *)
(* ===================================================================== *)

Module TagFacts.
Import JS JSFacts CreateDataTableTag CreateDataTableTagFacts.

Lemma includes_app (xs ys : list str) (v : str) :
  includes (xs ++ ys) v = includes xs v || includes ys v.
Proof. unfold includes. apply existsb_app. Qed.

(** X14: once the tag [s] has been added to the list, [s] itself is
    rejected, and every other candidate is judged as it was before. *)
Theorem isValidCheck_after_creation
        (toUpperCase : code_unit -> code_unit)
        (tags : option (list ITag)) (s s' : str) :
  s' <> s ->
  let tags' := Some (match tags with Some l => l | None => [] end ++ [mkTag s]) in
  isValidCheck toUpperCase tags' s = false
  /\ isValidCheck toUpperCase tags' s' = isValidCheck toUpperCase tags s'.
Proof.
  intros Hneq tags'.
  assert (E : existingTags tags' = existingTags tags ++ [s]).
  { unfold tags', existingTags. now rewrite map_app. }
  unfold isValidCheck. rewrite E, !includes_app. split.
  - destruct (str_match toUpperCase s tag_regex); [|reflexivity].
    unfold includes at 2. simpl. rewrite str_eqb_refl. simpl.
    now rewrite orb_true_r.
  - destruct (str_match toUpperCase s' tag_regex); [|reflexivity].
    unfold includes at 2. simpl.
    replace (str_eqb s' s) with false by (symmetry; now apply str_eqb_neq).
    simpl. now rewrite orb_false_r.
Qed.

Lemma is_alnum_upper (c : code_unit) : is_alnum c -> is_alnum (ascii_upper c).
Proof.
  unfold is_alnum, ascii_upper. intros H.
  destruct ((97 <=? c) && (c <=? 122))%N eqn:E; [|exact H].
  apply andb_true_iff in E as [E1 E2]. apply N.leb_le in E1, E2. lia.
Qed.

(** X15: the duplicate test tells upper and lower case apart although
    the pattern does not: the upper-cased form of a well-formed name is
    accepted whenever that exact form is not in the list, also when the
    name itself is. *)
Theorem isValidCheck_duplicates_are_case_sensitive
        (toUpperCase : code_unit -> code_unit)
        (tags : option (list ITag)) (s : str) :
  (forall c, (c < 128)%N -> toUpperCase c = ascii_upper c) ->
  matches_tag_pattern s ->
  ~ In (map ascii_upper s) (existingTags tags) ->
  isValidCheck toUpperCase tags (map ascii_upper s) = true.
Proof.
  intros Hup [Hlen Hall] Hnin.
  assert (Hs : matches_tag_pattern (map ascii_upper s)).
  { split; [now rewrite length_map|].
    apply Forall_map. eapply Forall_impl; [|exact Hall].
    intros c. apply is_alnum_upper. }
  apply (str_match_tag_regex toUpperCase Hup) in Hs as [i Hi].
  unfold isValidCheck. rewrite Hi.
  destruct (includes (existingTags tags) (map ascii_upper s)) eqn:E;
    [|reflexivity].
  apply includes_In in E. contradiction.
Qed.

End TagFacts.

(* ===================================================================== *)
(** * The further properties on concrete inputs *)
(* ===================================================================== *)

Module ExtraWitnesses.
Import JS JSFacts SearchAndReplace HookRuns Overlay CreateDataTableTag.
Import Examples MoreExamples HookFacts OverlayFacts TagFacts.
Local Open Scope hook_scope.

Lemma threeAt_in_range (i : Z) : 0 <= i < 3 -> index_in_range (threeAt i).
Proof. intros H. unfold index_in_range, length. simpl. lia. Defined.

Lemma threeAt_nonempty (i : Z) : searchResults (threeAt i) <> [].
Proof. discriminate. Defined.

Ltac exact_arith :=
  unfold exact_move, exact_sum, exact_number, length, with_index in *;
  cbn [searchResults currentSearchResultIndex threeAt noMatch List.length] in *;
  change (2 ^ 53) with 9007199254740992 in *;
  change (2 ^ 32) with 4294967296 in *;
  lia.

(** Next from the last of three matches goes to the first. *)
Lemma moveResultIndex_navigates_to_target_witness :
  exists m,
    index (searchResults (threeAt 2)) ((2 + 1) mod 3) = Some m
    /\ In m (searchResults (threeAt 2))
    /\ moveResultIndex Supplied 1 (threeAt 2)
       = ([JumpToResult (Some m) ThenResolve],
          Ok (with_index (threeAt 2) ((2 + 1) mod 3))).
Proof.
  apply (moveResultIndex_navigates_to_target Supplied 1 (threeAt 2)).
  - apply threeAt_nonempty.
  - exact_arith.
  - exact_arith.
Defined.


(** Previous, then next twice, from the first of three matches. *)
Lemma moveResultIndex_twice_witness :
  snd (next <- moveResultIndex Supplied (-1) (threeAt 0) ;;
       moveResultIndex Supplied 2 next)
  = snd (moveResultIndex Supplied (-1 + 2) (threeAt 0)).
Proof.
  apply (moveResultIndex_twice Supplied (-1) 2 (threeAt 0)).
  - apply threeAt_in_range. lia.
  - exact_arith.
  - change (wrapIndex (currentSearchResultIndex (threeAt 0)) (-1)
                      (length (searchResults (threeAt 0)))) with 2.
    exact_arith.
  - exact_arith.
  - exact_arith.
  - exact_arith.
  - exact_arith.
Defined.

(** Previous three times over three matches, from the second. *)
Lemma moveResultIndex_full_cycle_witness :
  exists log,
    run Supplied (repeat (fooHost 3 Supplied, MoveResultIndex (-1)) 3) (threeAt 1)
    = (log, Ok (threeAt 1))
    /\ log = map (fun j => move_call Supplied (threeAt 1)
                             ((1 + (Z.of_nat j + 1) * -1) mod 3))
                 (seq 0 3)
    /\ filter is_search log = []
    /\ List.length log = 3%nat.
Proof.
  apply (moveResultIndex_full_cycle Supplied (fooHost 3 Supplied) (-1) (threeAt 1)).
  - apply threeAt_nonempty.
  - apply threeAt_in_range. lia.
  - exact_arith.
  - intros i Hi. exact_arith.
Defined.

(** Replacing the second of three matches. *)
Lemma onReplace_not_last_keeps_state_witness :
  exists m,
    index (searchResults (threeAt 1)) (currentSearchResultIndex (threeAt 1)) = Some m
    /\ onReplace Supplied false (threeAt 1)
       = ([Replace [Some m] (replaceString (threeAt 1))], Ok (threeAt 1)).
Proof.
  apply (onReplace_not_last_keeps_state Supplied (threeAt 1)).
  - apply threeAt_in_range. lia.
  - unfold length. simpl. lia.
  - apply threeAt_nonempty.
Defined.

(** Replacing with nothing found, the index left at 2 by an earlier
    search. *)
Lemma onReplace_without_results_witness :
  onReplace Supplied false (with_index noMatch 2)
  = ([Replace [None] (lit "bar")], Ok (with_index noMatch 2))
  /\ onReplace Supplied true (with_index noMatch 2)
     = ([Replace [] (lit "bar")], Ok (with_index noMatch 2)).
Proof.
  apply (onReplace_without_results Supplied (with_index noMatch 2)).
  reflexivity.
Defined.

(** A passive search on a document with one "foo" left. *)
Lemma effect_search_does_not_retrigger_witness :
  with_results (threeAt 0) [0%nat]
  = with_results (threeAt 0) (fresh_results (fooHost 1 Supplied) (threeAt 0))
  /\ deps_changed (threeAt 0) (with_results (threeAt 0) [0%nat]) = false
  /\ useEffect (fooHost 1 Supplied) (threeAt 0) (with_results (threeAt 0) [0%nat])
     = ret (with_results (threeAt 0) [0%nat]).
Proof.
  apply (effect_search_does_not_retrigger (fooHost 1 Supplied) false (threeAt 0)).
  reflexivity.
Defined.


(** Esc, then Cmd-F, on the open bar. *)
Lemma hide_then_reopen_keeps_search_state_witness :
  step matchKey Supplied (fooHost 3 Supplied) (KeyDown KeyEsc) openOnSecond
  = ([StopPropagation; PreventDefault],
     ([], Ok {| showSearchAndReplace := false; searchState := threeAt 1 |}))
  /\ step matchKey Supplied (fooHost 3 Supplied) OnHide openOnSecond
     = ([], ([], Ok {| showSearchAndReplace := false; searchState := threeAt 1 |}))
  /\ step matchKey Supplied (fooHost 3 Supplied) (KeyDown KeyCmdF)
          {| showSearchAndReplace := false; searchState := threeAt 1 |}
     = ([StopPropagation; PreventDefault], ([], Ok openOnSecond)).
Proof.
  apply (hide_then_reopen_keeps_search_state matchKey Supplied (fooHost 3 Supplied)
           KeyEsc KeyCmdF openOnSecond); reflexivity.
Defined.

(** "q3" has just been added to a list holding "sales". *)
Lemma isValidCheck_after_creation_witness :
  isValidCheck Examples.toUpperCase
               (Some ([mkTag (lit "sales")] ++ [mkTag (lit "q3")])) (lit "q3") = false
  /\ isValidCheck Examples.toUpperCase
                  (Some ([mkTag (lit "sales")] ++ [mkTag (lit "q3")])) (lit "q4")
     = isValidCheck Examples.toUpperCase (Some [mkTag (lit "sales")]) (lit "q4").
Proof.
  apply (isValidCheck_after_creation Examples.toUpperCase
           (Some [mkTag (lit "sales")]) (lit "q3") (lit "q4")).
  discriminate.
Defined.

(** "SALES" beside the existing "sales". *)
Lemma isValidCheck_duplicates_are_case_sensitive_witness :
  isValidCheck Examples.toUpperCase (Some [mkTag (lit "sales")])
               (map ascii_upper (lit "sales")) = true.
Proof.
  apply (isValidCheck_duplicates_are_case_sensitive Examples.toUpperCase
           (Some [mkTag (lit "sales")]) (lit "sales")).
  - apply CreateDataTableTagFacts.example_toUpperCase_ascii.
  - split; [simpl; lia|]. unfold is_alnum. repeat constructor; simpl; lia.
  - simpl. intros [H | []]. discriminate.
Defined.

End ExtraWitnesses.
